(** * gen-orgchart: directory records to an organisation chart

    A shallow embedding of the pipeline of [gen-orgchart.py]: attribute
    canonicalisation ([canonicalize_attrs], [attr_s]), construction of the
    organisation tables ([result_to_org]) and rendering of the Graphviz
    document ([gen_orgchart] with [ORGCHART_TEMPLATE_STR]: [render] is the
    document, [stream] the writing of it to the handle).

    Python values are modelled as follows.
    - [str] is a list of Unicode code points ([pystr]); [bytes] is a list of
      [byte].
    - An exception is a value of [exn]; a computation that may raise has type
      [res A].
    - The attribute dictionary of an entry, which [canonicalize_attrs]
      mutates while iterating over it, is a [pydict]: the entry array of a
      CPython dictionary with its deleted slots and its spare capacity.
    - [reports_to] and [depts] are iterated in insertion order by the
      template and are association lists; the four lookup tables are
      [gmap]s. *)

From Stdlib Require Import Strings.Byte Strings.Ascii Strings.String.
From stdpp Require Import gmap strings list.

Local Open Scope N_scope.

(** ** Exceptions *)

Inductive exn : Type :=
| RuntimeError_changed_size   (* dictionary changed size during iteration *)
| RuntimeError_keys_changed   (* dictionary keys changed during iteration *)
| KeyError
| IndexError
| UnicodeDecodeError
| LDAPError.                  (* raised by ldap.dn.explode_dn *)

Inductive res (A : Type) : Type :=
| Ok (a : A)
| Raise (e : exn).
Arguments Ok {A} a.
Arguments Raise {A} e.

Global Instance res_bind : MBind res := λ A B k m,
  match m with
  | Ok a => k a
  | Raise e => Raise e
  end.

Global Instance res_ret : MRet res := λ A a, Ok a.

Fixpoint res_mapM {A B} (f : A → res B) (l : list A) : res (list B) :=
  match l with
  | [] => Ok []
  | a :: l' => b ← f a; bs ← res_mapM f l'; Ok (b :: bs)
  end.

(** ** Text and bytes *)

Abbreviation pystr := (list N).
Abbreviation pybytes := (list byte).

Fixpoint py (s : string) : pystr :=
  match s with
  | EmptyString => []
  | String c s' => N_of_ascii c :: py s'
  end.
Arguments py : simpl never.

Definition nl : pystr := [10].
Definition dq : pystr := [34].
Definition underscore : N := 95.

(** Python truth value of a [str]. *)
Definition truthy (s : pystr) : bool :=
  match s with [] => false | _ => true end.

(** *** [bytes.decode("utf-8")]

    The strict decoder: well-formed sequences only (no overlong forms, no
    surrogates, nothing above U+10FFFF); anything else raises
    [UnicodeDecodeError]. *)

Definition in_range (lo hi b : N) : bool := (lo <=? b) && (b <=? hi).

Definition cont (b : N) : N := b - 128.

Fixpoint utf8_decode_N (bs : list N) : res pystr :=
  match bs with
  | [] => Ok []
  | b0 :: r0 =>
    if b0 <? 128 then s ← utf8_decode_N r0; Ok (b0 :: s)
    else match r0 with
    | [] => Raise UnicodeDecodeError
    | b1 :: r1 =>
      if in_range 194 223 b0 then
        if in_range 128 191 b1
        then s ← utf8_decode_N r1; Ok ((b0 - 192) * 64 + cont b1 :: s)
        else Raise UnicodeDecodeError
      else match r1 with
      | [] => Raise UnicodeDecodeError
      | b2 :: r2 =>
        if in_range 224 239 b0 then
          if in_range (if b0 =? 224 then 160 else 128)
                      (if b0 =? 237 then 159 else 191) b1
             && in_range 128 191 b2
          then s ← utf8_decode_N r2;
               Ok ((b0 - 224) * 4096 + cont b1 * 64 + cont b2 :: s)
          else Raise UnicodeDecodeError
        else match r2 with
        | [] => Raise UnicodeDecodeError
        | b3 :: r3 =>
          if in_range 240 244 b0
             && in_range (if b0 =? 240 then 144 else 128)
                         (if b0 =? 244 then 143 else 191) b1
             && in_range 128 191 b2 && in_range 128 191 b3
          then s ← utf8_decode_N r3;
               Ok ((b0 - 240) * 262144 + cont b1 * 4096
                   + cont b2 * 64 + cont b3 :: s)
          else Raise UnicodeDecodeError
        end
      end
    end
  end.

Definition utf8_decode (bs : pybytes) : res pystr :=
  utf8_decode_N (map Byte.to_N bs).

Definition bytes_of (s : string) : pybytes := list_byte_of_string s.

(** ** The dictionary of an entry

    CPython (3.8 and later) keeps the items of a dictionary in an array in
    insertion order ([dk_entries]) and counts the slots that may still be
    appended ([dk_usable]).  Deleting an item leaves an empty slot behind;
    inserting a new key appends a slot, after the array has been rebuilt
    without its empty slots when no spare slot is left.  A key iterator
    remembers the number of items it started with and its position in the
    array.  What a loop that renames keys while it iterates does depends on
    all of this, so all of it is part of the value. *)

Section PyDict.
Context {V : Type}.

Record pydict : Type := PyDict {
  dk_entries : list (option (pystr * V));
  dk_usable : nat
}.

Definition live (es : list (option (pystr * V))) : list (pystr * V) :=
  omap id es.

Definition dict_items (d : pydict) : list (pystr * V) := live (dk_entries d).
Definition dict_keys (d : pydict) : list pystr := (dict_items d).*1.
Definition ma_used (d : pydict) : nat := length (dict_items d).

Fixpoint assoc (k : pystr) (l : list (pystr * V)) : option V :=
  match l with
  | [] => None
  | (k', v) :: l' => if decide (k' = k) then Some v else assoc k l'
  end.

(** [d.get(k)] *)
Definition dict_get (k : pystr) (d : pydict) : option V :=
  assoc k (dict_items d).

(** [k in d] *)
Definition dict_contains (k : pystr) (d : pydict) : bool :=
  bool_decide (is_Some (dict_get k d)).

(** [d[k]] *)
Definition dict_getitem (k : pystr) (d : pydict) : res V :=
  match dict_get k d with
  | Some v => Ok v
  | None => Raise KeyError
  end.

Definition has_key (k : pystr) (e : option (pystr * V)) : bool :=
  match e with
  | Some (k', _) => bool_decide (k' = k)
  | None => false
  end.

(** [d.pop(k)]: the slot of [k] is emptied, nothing moves. *)
Fixpoint clear_slot (k : pystr) (es : list (option (pystr * V)))
  : list (option (pystr * V)) :=
  match es with
  | [] => []
  | e :: es' => if has_key k e then None :: es' else e :: clear_slot k es'
  end.

Definition dict_pop (k : pystr) (d : pydict) : res (V * pydict) :=
  match dict_get k d with
  | Some v => Ok (v, PyDict (clear_slot k (dk_entries d)) (dk_usable d))
  | None => Raise KeyError
  end.

Fixpoint store_slot (k : pystr) (v : V) (es : list (option (pystr * V)))
  : list (option (pystr * V)) :=
  match es with
  | [] => []
  | e :: es' =>
    if has_key k e then Some (k, v) :: es' else e :: store_slot k v es'
  end.

(** Smallest power of two that is at least [minsize] and at least 8. *)
Fixpoint grow_keysize (fuel newsize minsize : nat) : nat :=
  match fuel with
  | O => newsize
  | S fuel' =>
    if (newsize <? minsize)%nat
    then grow_keysize fuel' (2 * newsize) minsize
    else newsize
  end.

Definition keysize (minsize : nat) : nat := grow_keysize minsize 8 minsize.

Definition USABLE_FRACTION (n : nat) : nat := (2 * n / 3)%nat.

(** Rebuild the array for three times the current number of items. *)
Definition insertion_resize (d : pydict) : pydict :=
  let used := ma_used d in
  PyDict (Some <$> dict_items d)
         (USABLE_FRACTION (keysize (3 * used)) - used).

(** [d[k] = v] *)
Definition dict_setitem (k : pystr) (v : V) (d : pydict) : pydict :=
  if dict_contains k d
  then PyDict (store_slot k v (dk_entries d)) (dk_usable d)
  else
    let d' := match dk_usable d with
              | O => insertion_resize d
              | S _ => d
              end in
    PyDict (dk_entries d' ++ [Some (k, v)]) (pred (dk_usable d')).

Definition dict_empty : pydict := PyDict [] 0.

(** A dictionary filled item by item, starting from an empty one. *)
Definition dict_of_items (l : list (pystr * V)) : pydict :=
  foldl (fun d kv => dict_setitem kv.1 kv.2 d) dict_empty l.

(** First occupied slot at position [pos] or later. *)
Fixpoint next_slot (pos : nat) (es : list (option (pystr * V)))
  : option (nat * pystr) :=
  match es with
  | [] => None
  | e :: es' =>
    match pos, e with
    | O, Some (k, _) => Some (O, k)
    | O, None => prod_map S id <$> next_slot O es'
    | S pos', _ => prod_map S id <$> next_slot pos' es'
    end
  end.

(** [for attr in entry: if attr in attr_map:
       entry[attr_map[attr]] = entry.pop(attr)]

    One turn of the loop asks the iterator for the next key.  The
    iterator raises when the number of items differs from the number it
    started with ([di_used]), stops at the end of the array, and raises
    when it finds a key after having handed out as many keys as the
    dictionary had at the start ([len] counts them down). *)
Fixpoint rename_loop (len : nat) (di_used di_pos : nat)
    (attr_map : gmap pystr pystr) (entry : pydict) : res pydict :=
  if bool_decide (di_used = ma_used entry) then
    match next_slot di_pos (dk_entries entry) with
    | None => Ok entry
    | Some (i, attr) =>
      match len with
      | O => Raise RuntimeError_keys_changed
      | S len' =>
        match attr_map !! attr with
        | Some canonical =>
          '(v, entry1) ← dict_pop attr entry;
          rename_loop len' di_used (S i) attr_map
                      (dict_setitem canonical v entry1)
        | None => rename_loop len' di_used (S i) attr_map entry
        end
      end
    end
  else Raise RuntimeError_changed_size.

Definition canonicalize_attrs (entry : pydict)
    (attr_map : gmap pystr pystr) : res pydict :=
  rename_loop (ma_used entry) (ma_used entry) 0%nat attr_map entry.

End PyDict.
Arguments pydict V : clear implicits.

(** To canonicalize LDAP attributes. *)
Definition MAP_ATTRS : gmap pystr pystr :=
  list_to_map [
    (py "department", py "departmentNumber");
    (py "comment", py "description");
    (py "company", py "o");
    (py "employeeID", py "employeeNumber");
    (py "thumbnailPhoto", py "jpegPhoto");
    (py "streetaddress", py "street")
  ].

Abbreviation entry_t := (pydict (list pybytes)).

(** [attr_s]: the first value of the attribute, decoded, or the empty string
    when the attribute is missing or has no value. *)
Definition attr_s (entry : entry_t) (attr_name : pystr) : res pystr :=
  if dict_contains attr_name entry then
    vals ← dict_getitem attr_name entry;
    if negb (length vals =? 0)%nat then
      vals' ← dict_getitem attr_name entry;
      match vals' with
      | v :: _ => utf8_decode v
      | [] => Raise IndexError
      end
    else Ok []
  else Ok [].

(** ** The organisation tables *)

Abbreviation odict := (list (pystr * list pystr)).

(** [d.setdefault(k, []).append(x)]: the list stored under [k] grows in
    place; a new key goes to the end. *)
Fixpoint setdefault_append (k x : pystr) (d : odict) : odict :=
  match d with
  | [] => [(k, [x])]
  | (k', l) :: d' =>
    if decide (k' = k) then (k', l ++ [x]) :: d'
    else (k', l) :: setdefault_append k x d'
  end.

Record org_t : Type := Org {
  reports_to : odict;
  depts : odict;
  dept_of : gmap pystr pystr;
  title_of : gmap pystr pystr;
  mgr_of : gmap pystr pystr;
  display_name : gmap pystr pystr
}.

Definition empty_org : org_t := Org [] [] ∅ ∅ ∅ ∅.

Abbreviation result_t := (list (option pystr * entry_t)).

(** The body of [for dn, entry in result].  The entry is renamed in place;
    no later code reads it again. *)
Definition loop_body (org : org_t) (dn : option pystr) (entry : entry_t)
  : res org_t :=
  match dn with
  | None => Ok org
  | Some dn =>
    entry ← canonicalize_attrs entry MAP_ATTRS;
    name ← attr_s entry (py "displayName");
    let display_name := <[dn := name]> (display_name org) in
    title ← attr_s entry (py "title");
    mgr ← attr_s entry (py "manager");
    let mgr_of := if truthy mgr then <[dn := mgr]> (mgr_of org)
                  else mgr_of org in
    let reports_to := if truthy mgr
                      then setdefault_append mgr dn (reports_to org)
                      else reports_to org in
    dept ← attr_s entry (py "departmentNumber");
    let depts := if truthy dept then setdefault_append dept dn (depts org)
                 else depts org in
    let dept_of := if truthy dept then <[dn := dept]> (dept_of org)
                   else dept_of org in
    let title_of := <[dn := title]> (title_of org) in
    Ok (Org reports_to depts dept_of title_of mgr_of display_name)
  end.

Fixpoint for_result (org : org_t) (result : result_t) : res org_t :=
  match result with
  | [] => Ok org
  | (dn, entry) :: rest => org' ← loop_body org dn entry; for_result org' rest
  end.

Definition result_to_org (result0 : result_t)
    (preprocess : option (result_t → result_t)) : res org_t :=
  let result := match preprocess with
                | Some f => f result0
                | None => result0
                end in
  for_result empty_org result.

(** *** Records

    The fields that [result_to_org] reads from one entry: the Record of the
    data model.  [normalize] is the part of the loop body that can raise,
    [add_record] the part that updates the tables. *)

Record record : Type := Rec {
  rec_name : pystr;
  rec_title : pystr;
  rec_manager : pystr;
  rec_department : pystr
}.

Definition normalize (entry : entry_t) : res record :=
  entry ← canonicalize_attrs entry MAP_ATTRS;
  name ← attr_s entry (py "displayName");
  title ← attr_s entry (py "title");
  mgr ← attr_s entry (py "manager");
  dept ← attr_s entry (py "departmentNumber");
  Ok (Rec name title mgr dept).

Definition add_record (org : org_t) (dn : pystr) (r : record) : org_t :=
  let mgr := rec_manager r in
  let dept := rec_department r in
  Org (if truthy mgr then setdefault_append mgr dn (reports_to org)
       else reports_to org)
      (if truthy dept then setdefault_append dept dn (depts org)
       else depts org)
      (if truthy dept then <[dn := dept]> (dept_of org) else dept_of org)
      (<[dn := rec_title r]> (title_of org))
      (if truthy mgr then <[dn := mgr]> (mgr_of org) else mgr_of org)
      (<[dn := rec_name r]> (display_name org)).

(** The records of a result, in input order; results without a DN are
    skipped, as the loop does. *)
Fixpoint records_of (result : result_t) : res (list (pystr * record)) :=
  match result with
  | [] => Ok []
  | (None, _) :: rest => records_of rest
  | (Some dn, entry) :: rest =>
    r ← normalize entry; rs ← records_of rest; Ok ((dn, r) :: rs)
  end.

Definition build_from (org : org_t) (recs : list (pystr * record)) : org_t :=
  foldl (λ org p, add_record org p.1 p.2) org recs.

(** Identifiers of the records whose field [f] is [m], in input order. *)
Definition members (f : record → pystr) (m : pystr)
    (recs : list (pystr * record)) : list pystr :=
  (filter (λ p, f p.2 = m) recs).*1.

(** The group stored under [m]: none for the empty string and for a value
    no record carries. *)
Definition group_of (f : record → pystr) (m : pystr)
    (recs : list (pystr * record)) : option (list pystr) :=
  if truthy m then
    match members f m recs with
    | [] => None
    | l => Some l
    end
  else None.

(** The values of a field that are not empty, in input order. *)
Definition field_values (f : record → pystr) (recs : list (pystr * record))
  : list pystr :=
  filter (λ m, m ≠ []) (f ∘ snd <$> recs).

(** Each value once, at the place of its first occurrence. *)
Definition first_seen (l : list pystr) : list pystr :=
  reverse (remove_dups (reverse l)).

(** The last record of an identifier. *)
Definition last_record (id : pystr) (recs : list (pystr * record))
  : option record :=
  snd <$> last (filter (λ p, p.1 = id) recs).

(** ** Rendering *)

Definition missing_title : pystr := py "(missing from database)".

(** [title_of.get(dn, '(missing from database)')] *)
Definition title_s (dn : pystr) (title_of : gmap pystr pystr) : pystr :=
  default missing_title (title_of !! dn).

(** [str.strip(c)] for a single character [c]. *)
Fixpoint lstrip (c : N) (s : pystr) : pystr :=
  match s with
  | [] => []
  | x :: s' => if x =? c then lstrip c s' else s
  end.

Definition rstrip (c : N) (s : pystr) : pystr :=
  reverse (lstrip c (reverse s)).

Definition strip (c : N) (s : pystr) : pystr := rstrip c (lstrip c s).

Section Render.
(** The three library functions the renderer calls:
    [ldap.dn.explode_dn(dn, notypes)] of python-ldap, the class [\w] of
    module [re] on [str], and [str.lower]. *)
Variable explode_dn : pystr → bool → res (list pystr).
Variable is_word : N → bool.
Variable str_lower : pystr → pystr.

(** Return the first component of a DN. *)
Definition dn_to_ident (dn_str : pystr) : res pystr :=
  l ← explode_dn dn_str true;
  match l with
  | x :: _ => Ok x
  | [] => Raise IndexError
  end.

(** [display_name.get(dn, dn_to_ident(dn))]: the default is an argument
    of the call and is computed first. *)
Definition name_s (dn : pystr) (display_name : gmap pystr pystr)
  : res pystr :=
  ident ← dn_to_ident dn;
  Ok (default ident (display_name !! dn)).

(** [re.sub(r"\W+", "_", s)]: the scan emits one replacement where a
    match starts and drops the rest of the match, which extends as long
    as the characters are not word characters ([in_match]). *)
Fixpoint re_sub_W (in_match : bool) (s : pystr) : pystr :=
  match s with
  | [] => []
  | c :: s' =>
    if is_word c then c :: re_sub_W false s'
    else if in_match then re_sub_W true s'
    else underscore :: re_sub_W true s'
  end.

Definition snake_case (s : pystr) : pystr :=
  str_lower (strip underscore (re_sub_W false s)).

Definition name_and_title (dn : pystr)
    (display_name title_of : gmap pystr pystr) : res pystr :=
  name ← name_s dn display_name;
  Ok (name ++ nl ++ title_s dn title_of).

(** *** [ORGCHART_TEMPLATE_STR]

    The text between the tags of the template, after the whitespace
    control of the [{%-] tags and the removal of the final newline. *)

Definition template_head : pystr :=
  nl ++ py "strict digraph orgchart {" ++
  nl ++ py "  fontsize = 10;" ++
  nl ++ py "  fontname = " ++ dq ++ py "Helvetica" ++ dq ++ py ";" ++
  nl ++ py "  node [" ++
  nl ++ py "    shape = box," ++
  nl ++ py "    fontname = " ++ dq ++ py "Helvetica" ++ dq ++ py "," ++
  nl ++ py "    fontsize = 10" ++
  nl ++ py "  ];" ++
  nl ++ py "  ".

Definition template_foot : pystr := nl ++ py "}" ++ nl.

Definition block_end : pystr := nl ++ py "  }" ++ nl ++ py "  ".

Section Tables.
Variable org : org_t.

Definition label (dn : pystr) : res pystr :=
  name_and_title dn (display_name org) (title_of org).

(** [{%- for dn in depts[dept] %} "..."; {%- endfor %}] *)
Definition render_member (dn : pystr) : res pystr :=
  l ← label dn;
  Ok (nl ++ py "    " ++ dq ++ l ++ dq ++ py ";").

(** [{% for dept in depts.keys() %} subgraph ... {% endfor %}] *)
Definition render_cluster (dept : pystr) : res pystr :=
  dns ← from_option Ok (Raise KeyError) (assoc dept (depts org));
  nodes ← res_mapM render_member dns;
  Ok (nl ++ py "  subgraph cluster_" ++ snake_case dept ++ py " {" ++
      nl ++ py "    label = " ++ dq ++ dept ++ dq ++ py ";" ++
      concat nodes ++ block_end).

(** [{%- for dn in reports_to[mgr_dn] %} "..." {%- endfor %}] *)
Definition render_report (dn : pystr) : res pystr :=
  l ← label dn;
  Ok (nl ++ py "    " ++ dq ++ l ++ dq).

(** [{%- for mgr_dn in reports_to.keys() %} "..." -> {...} {% endfor %}] *)
Definition render_edges (mgr_dn : pystr) : res pystr :=
  l ← label mgr_dn;
  dns ← from_option Ok (Raise KeyError) (assoc mgr_dn (reports_to org));
  targets ← res_mapM render_report dns;
  Ok (nl ++ py "  " ++ dq ++ l ++ dq ++ py " -> {" ++
      concat targets ++ block_end).

Definition render : res pystr :=
  clusters ← res_mapM render_cluster (depts org).*1;
  edges ← res_mapM render_edges (reports_to org).*1;
  Ok (template_head ++ concat clusters ++ concat edges ++ template_foot).
End Tables.

(** *** [gen_orgchart]: writing to the handle

    [env.from_string(ORGCHART_TEMPLATE_STR).stream(org).dump(fh)] writes
    the pieces of the document to the handle as the template yields them
    (Jinja 3: one piece for each stretch of text and for each expression).
    When an expression raises, the pieces before it have been written and
    the exception reaches the caller.  A run is the text written and the
    exception, if any. *)

Definition wrote (text : pystr) : pystr * option exn := (text, None).

Definition and_then (w1 w2 : pystr * option exn) : pystr * option exn :=
  match w1 with
  | (text, None) => (text ++ w2.1, w2.2)
  | (text, Some e) => (text, Some e)
  end.

Fixpoint stream_for {A} (body : A → pystr * option exn) (l : list A)
  : pystr * option exn :=
  match l with
  | [] => wrote []
  | x :: l' => and_then (body x) (stream_for body l')
  end.

(** The text before an expression, the expression, the text after it. *)
Definition stream_expr (before : pystr) (value : res pystr) (after : pystr)
  : pystr * option exn :=
  match value with
  | Ok v => wrote (before ++ v ++ after)
  | Raise e => (before, Some e)
  end.

Definition stream_lookup (table : odict) (k : pystr)
    (body : list pystr → pystr * option exn) : pystr * option exn :=
  match assoc k table with
  | Some dns => body dns
  | None => ([], Some KeyError)
  end.

Definition stream_member (org : org_t) (dn : pystr) : pystr * option exn :=
  stream_expr (nl ++ py "    " ++ dq) (label org dn) (dq ++ py ";").

Definition stream_cluster (org : org_t) (dept : pystr)
  : pystr * option exn :=
  and_then
    (wrote (nl ++ py "  subgraph cluster_" ++ snake_case dept ++ py " {" ++
            nl ++ py "    label = " ++ dq ++ dept ++ dq ++ py ";"))
    (stream_lookup (depts org) dept (λ dns,
       and_then (stream_for (stream_member org) dns) (wrote block_end))).

Definition stream_report (org : org_t) (dn : pystr) : pystr * option exn :=
  stream_expr (nl ++ py "    " ++ dq) (label org dn) dq.

Definition stream_edges (org : org_t) (mgr_dn : pystr)
  : pystr * option exn :=
  and_then
    (stream_expr (nl ++ py "  " ++ dq) (label org mgr_dn) (dq ++ py " -> {"))
    (stream_lookup (reports_to org) mgr_dn (λ dns,
       and_then (stream_for (stream_report org) dns) (wrote block_end))).

Definition stream (org : org_t) : pystr * option exn :=
  and_then (wrote template_head)
    (and_then (stream_for (stream_cluster org) (depts org).*1)
       (and_then (stream_for (stream_edges org) (reports_to org).*1)
          (wrote template_foot))).

(** The handle after the run, and the exception if there was one. *)
Definition gen_orgchart (fh : pystr) (org : org_t) : pystr * option exn :=
  let run := stream org in (fh ++ run.1, run.2).

(** *** The slug, as the design describes it

    Cut the string into its maximal runs of word and of non-word
    characters, put one underscore in place of every non-word run, strip
    the underscores at both ends and lowercase. *)

Fixpoint runs (s : pystr) : list (bool * pystr) :=
  match s with
  | [] => []
  | c :: s' =>
    match runs s' with
    | (w, r) :: rest =>
      if bool_decide (w = is_word c) then (w, c :: r) :: rest
      else (is_word c, [c]) :: (w, r) :: rest
    | [] => [(is_word c, [c])]
    end
  end.

Definition replace_run (wr : bool * pystr) : pystr :=
  if wr.1 then wr.2 else [underscore].

Definition slug_spec (s : pystr) : pystr :=
  str_lower (strip underscore (concat (replace_run <$> runs s))).

End Render.

(** *** The library functions on plain input

    Instances used to run the renderer on examples.  They agree with the
    libraries on ASCII text and on distinguished names whose components are
    single [type=value] pairs without escapes, quotes or spaces. *)

Definition ascii_word (c : N) : bool :=
  in_range 48 57 c || in_range 65 90 c || in_range 97 122 c || (c =? 95).

Definition ascii_lower (s : pystr) : pystr :=
  (λ c, if in_range 65 90 c then c + 32 else c) <$> s.

Fixpoint split_on (sep : N) (s : pystr) : list pystr :=
  match s with
  | [] => [[]]
  | c :: s' =>
    if c =? sep then [] :: split_on sep s'
    else match split_on sep s' with
         | p :: ps => (c :: p) :: ps
         | [] => [[c]]
         end
  end.

Fixpoint after_equals (s : pystr) : option pystr :=
  match s with
  | [] => None
  | c :: s' => if c =? 61 then Some s' else after_equals s'
  end.

Definition explode_dn_plain (dn : pystr) (notypes : bool)
  : res (list pystr) :=
  match dn with
  | [] => Ok []
  | _ =>
    res_mapM (λ rdn, match after_equals rdn with
                     | Some v => Ok (if notypes then v else rdn)
                     | None => Raise LDAPError
                     end)
             (split_on 44 dn)
  end.

Definition entry_of (l : list (string * list string)) : entry_t :=
  dict_of_items
    ((λ kv : string * list string, (py kv.1, bytes_of <$> kv.2)) <$> l).

(** ** Notions used to state the properties *)

(** Number of occupied slots at position [pos] or later. *)
Definition live_from {V} (pos : nat) (es : list (option (pystr * V))) : nat :=
  length (live (drop pos es)).

(** The keys of [MAP_ATTRS]. *)
Definition variant_keys : list pystr :=
  py <$> ["department"; "comment"; "company"; "employeeID";
          "thumbnailPhoto"; "streetaddress"]%string.

(** The first value of an attribute, if the entry has one. *)
Definition first_value (entry : entry_t) (a : pystr) : option pybytes :=
  match dict_get a entry with
  | Some (v :: _) => Some v
  | _ => None
  end.

(** The attributes [result_to_org] reads, with the field each one fills. *)
Definition read_attrs : list (pystr * (record → pystr)) :=
  [ (py "displayName", rec_name); (py "title", rec_title);
    (py "manager", rec_manager); (py "departmentNumber", rec_department) ].

(** The first value of the attribute, if any, is well-formed UTF-8. *)
Definition decodable (entry : entry_t) (a : pystr) : bool :=
  match first_value entry a with
  | Some v => match utf8_decode v with Ok _ => true | Raise _ => false end
  | None => true
  end.

(** One grouped table: what [setdefault_append] has built after the
    records [recs], for the field [f]. *)
Definition grouped (f : record → pystr) (recs : list (pystr * record))
    (table : odict) : Prop :=
  table.*1 = first_seen (field_values f recs) ∧
  ∀ m, assoc m table = group_of f m recs.

(** Number of occurrences of [x] in [l]. *)
Definition occurrences (x : pystr) (l : list pystr) : nat :=
  length (filter (λ y, y = x) l).

(** The display name as the design describes it: the stored name when it is
    not empty, the leading component of the identifier otherwise. *)
Definition name_spec (explode_dn : pystr → bool → res (list pystr))
    (dn : pystr) (display_name : gmap pystr pystr) : res pystr :=
  ident ← dn_to_ident explode_dn dn;
  Ok (match display_name !! dn with
      | Some (c :: s) => c :: s
      | _ => ident
      end).

(** Neighbouring runs are of different kinds. *)
Fixpoint alternate (l : list (bool * pystr)) : Prop :=
  match l with
  | wr1 :: ((wr2 :: _) as l') => wr1.1 ≠ wr2.1 ∧ alternate l'
  | _ => True
  end.

(** ** Sample inputs *)

(** Two people of one department, the first reporting to the second. *)
Definition alice_bob : result_t :=
  [ (Some (py "cn=a"),
     entry_of [("displayName", ["Alice"]); ("title", ["Dev"]);
               ("manager", ["cn=b"]); ("departmentNumber", ["Eng"])]%string);
    (Some (py "cn=b"),
     entry_of [("displayName", ["Bob"]); ("title", ["Mgr"]);
               ("departmentNumber", ["Eng"])]%string) ].

Definition alice_bob_records : list (pystr * record) :=
  [ (py "cn=a", Rec (py "Alice") (py "Dev") (py "cn=b") (py "Eng"));
    (py "cn=b", Rec (py "Bob") (py "Mgr") [] (py "Eng")) ].

(** The same identifier twice, a paging marker in between. *)
Definition ann_twice : result_t :=
  [ (Some (py "cn=a"),
     entry_of [("displayName", ["Ann"]); ("title", ["Dev"]);
               ("manager", ["cn=m"])]%string);
    (None, dict_empty);
    (Some (py "cn=a"),
     entry_of [("displayName", ["Ann B"]); ("title", ["Lead"]);
               ("manager", ["cn=m"])]%string) ].

Definition ann_twice_records : list (pystr * record) :=
  [ (py "cn=a", Rec (py "Ann") (py "Dev") (py "cn=m") []);
    (py "cn=a", Rec (py "Ann B") (py "Lead") (py "cn=m") []) ].

(** A title that is not UTF-8: the single byte 0xFF. *)
Definition bad_title : entry_t :=
  dict_of_items [ (py "displayName", [bytes_of "Ann"]);
                  (py "title", [[xff]]) ].

(** An Active Directory entry whose renaming runs to its end. *)
Definition ad_entry : entry_t :=
  entry_of [("displayName", ["Ann"]); ("title", []);
            ("company", ["ACME"]); ("department", ["Eng"])]%string.

Definition ad_entry_renamed : entry_t :=
  PyDict [ Some (py "displayName", [bytes_of "Ann"]); Some (py "title", []);
           Some (py "o", [bytes_of "ACME"]);
           Some (py "departmentNumber", [bytes_of "Eng"]) ] 6.

(** An entry with canonical names only. *)
Definition inetorg_entry : entry_t :=
  entry_of [("displayName", ["Ann"]); ("title", ["Dev"]);
            ("o", ["ACME"]); ("departmentNumber", ["Eng"])]%string.

(** A record without a display name. *)
Definition nameless : result_t :=
  [ (Some (py "cn=a,dc=x"), entry_of [("title", ["Dev"])]%string) ].

(** Two departments whose names differ in case and punctuation. *)
Definition two_departments : result_t :=
  [ (Some (py "cn=a"),
     entry_of [("displayName", ["Ann"]); ("title", ["Dev"]);
               ("departmentNumber", ["R&D"])]%string);
    (Some (py "cn=b"),
     entry_of [("displayName", ["Bob"]); ("title", ["Dev"]);
               ("departmentNumber", ["r d"])]%string) ].

(** ** The search filter

    [filters_to_ldapfilter] and [get_attrlist_filterstr].  A filter
    expression is the tuple [(prefix_op, compare_op, val)], with [None] or
    an operator as [prefix_op]; the filters are a dictionary from attribute
    names to expressions, read in the order of [filters.items()]. *)

Abbreviation filter_expr := (option pystr * pystr * pystr)%type.

(** Python truth value of [None] or a [str]. *)
Definition truthy_opt (o : option pystr) : bool :=
  match o with
  | Some s => truthy s
  | None => false
  end.

(** The two f-strings of the loop body. *)
Definition filt_str (attr : pystr) (e : filter_expr) : pystr :=
  let '(prefix_op, compare_op, val) := e in
  if truthy_opt prefix_op
  then py "(" ++ default [] prefix_op ++ py "(" ++ attr ++ compare_op ++ val
       ++ py "))"
  else py "(" ++ attr ++ compare_op ++ val ++ py ")".

Definition filters_to_ldapfilter (filters : pydict filter_expr) : pystr :=
  let filt_strs := (λ kv, filt_str kv.1 kv.2) <$> dict_items filters in
  if (1 <? length filt_strs)%nat
  then py "(&" ++ concat filt_strs ++ py ")"
  else
    match filt_strs with
    | [f] => py "(" ++ f ++ py ")"
    | _ => []
    end.

(** [str.split()] on the blanks of ASCII. *)
Definition is_space (c : N) : bool :=
  in_range 9 13 c || in_range 28 32 c.

Fixpoint str_split_from (word : pystr) (s : pystr) : list pystr :=
  match s with
  | [] => match word with [] => [] | _ => [reverse word] end
  | c :: s' =>
    if is_space c
    then match word with
         | [] => str_split_from [] s'
         | _ => reverse word :: str_split_from [] s'
         end
    else str_split_from (c :: word) s'
  end.

Definition str_split (s : pystr) : list pystr := str_split_from [] s.

(** What [get_attrlist_filterstr] can do: return, or raise [ValueError]
    with a message. *)
Inductive outcome (A : Type) : Type :=
| Returns (a : A)
| ValueError (msg : pystr).
Arguments Returns {A} a.
Arguments ValueError {A} msg.

Definition sAMAccountType : pystr := py "sAMAccountType".
Definition userAccountControl : pystr :=
  py "userAccountControl:1.2.840.113556.1.4.803:".

(** The function returns the pair of the attribute list and the filter
    string; the dictionary [filters] of the caller is changed in place and
    is the third component here. *)
Definition get_attrlist_filterstr (str_lower : pystr → pystr)
    (schema_name : pystr) (filters : pydict filter_expr)
  : outcome (list pystr * pystr * pydict filter_expr) :=
  let s := str_lower schema_name in
  if bool_decide (s = py "inetorgperson") then
    let attrstr := py "dn displayname title manager o departmentNumber" in
    Returns (str_split attrstr, filters_to_ldapfilter filters, filters)
  else if bool_decide (s = py "activedirectory") then
    let filters :=
      dict_setitem sAMAccountType (None, py "=", py "805306368") filters in
    let filters :=
      dict_setitem userAccountControl (Some (py "!"), py "=", py "2") filters in
    let attrstr := py "dn displayname title manager company department" in
    Returns (str_split attrstr, filters_to_ldapfilter filters, filters)
  else ValueError (py "Unsupported schema " ++ dq ++ schema_name ++ dq).

(** The filters [main] starts from. *)
Definition main_filters : pydict filter_expr :=
  dict_of_items [ (py "displayName", (None, py "=", py "*"));
                  (py "title", (None, py "=", py "*")) ].

(** *** Parentheses *)

(** The nesting depth after [s], starting at [depth]; none when a closing
    parenthesis has no opening one. *)
Fixpoint paren_scan (depth : nat) (s : pystr) : option nat :=
  match s with
  | [] => Some depth
  | c :: s' =>
    if c =? 40 then paren_scan (S depth) s'
    else if c =? 41 then
      match depth with
      | O => None
      | S d => paren_scan d s'
      end
    else paren_scan depth s'
  end.

Definition balanced (s : pystr) : Prop := paren_scan 0 s = Some 0%nat.

Definition paren_free (s : pystr) : bool :=
  forallb (λ c, negb ((c =? 40) || (c =? 41))) s.

Definition clause_paren_free (kv : pystr * filter_expr) : bool :=
  let '(attr, (prefix_op, compare_op, val)) := kv in
  paren_free attr && paren_free (default [] prefix_op)
  && paren_free compare_op && paren_free val.

(** ** More notions for the properties *)

(** A dictionary as it is received: no deleted slot. *)
Definition compact {V} (d : pydict V) : Prop :=
  dk_entries d = Some <$> dict_items d.

(** Every identifier the template renders: the managers, their reports and
    the members of the departments. *)
Definition rendered_ids (org : org_t) : list pystr :=
  concat (depts org).*2 ++ (reports_to org).*1 ++ concat (reports_to org).*2.

(** The last manager, or department, that the records give an identifier:
    a record with an empty field leaves the earlier value in place. *)
Definition last_field (f : record → pystr) (id : pystr)
    (recs : list (pystr * record)) : option pystr :=
  f <$> (snd <$> last (filter (λ p, p.1 = id ∧ f p.2 ≠ []) recs)).

(** Three attributes, one of them with its Active Directory name. *)
Definition ad_small : entry_t :=
  entry_of [("displayName", ["Ann"]); ("title", ["Dev"]);
            ("department", ["Eng"])]%string.

(** An entry that [result_to_org] takes without raising: no key that
    [MAP_ATTRS] renames, and first values that are UTF-8. *)
Definition plain_entry (entry : entry_t) : bool :=
  forallb (λ k, negb (dict_contains k entry)) variant_keys
  && forallb (decodable entry) read_attrs.*1.

Definition plain_result (p : option pystr * entry_t) : bool :=
  match p.1 with
  | Some _ => plain_entry p.2
  | None => true
  end.

(** The identifiers of a result. *)
Definition result_ids (result : result_t) : list pystr := omap fst result.

(** [explode_dn] accepts the identifier and gives it a component. *)
Definition parses (explode_dn : pystr → bool → res (list pystr))
    (id : pystr) : bool :=
  match dn_to_ident explode_dn id with
  | Ok _ => true
  | Raise _ => false
  end.

(** What [ascii_lower] does to one character. *)
Definition lower_char (c : N) : N := if in_range 65 90 c then c + 32 else c.

(** *** The clusters a document is to have

    The node of a record in the cluster of its department, and the cluster
    of a department: its heading, the nodes of the records with that
    department in input order, its end. *)

Definition node_line (p : pystr * record) : pystr :=
  nl ++ py "    " ++ dq ++ (rec_name p.2 ++ nl ++ rec_title p.2) ++ dq
  ++ py ";".

Definition cluster_doc (is_word : N → bool) (str_lower : pystr → pystr)
    (recs : list (pystr * record)) (d : pystr) : pystr :=
  nl ++ py "  subgraph cluster_" ++ snake_case is_word str_lower d ++ py " {" ++
  nl ++ py "    label = " ++ dq ++ d ++ dq ++ py ";" ++
  concat (node_line <$> filter (λ p, rec_department p.2 = d) recs) ++
  block_end.

(** A run that ends without an exception has written the whole text of
    [render]; a run that ends with one has raised the exception of
    [render]. *)
Definition agrees (r : res pystr) (w : pystr * option exn) : Prop :=
  match r with
  | Ok text => w = (text, None)
  | Raise e => ∃ partial, w = (partial, Some e)
  end.

(** * Properties *)

(** ** The error monad *)

Lemma res_bind_Ok_l {A B} (a : A) (k : A → res B) : Ok a ≫= k = k a.
Proof. done. Qed.

Lemma res_bind_Raise_l {A B} (e : exn) (k : A → res B) :
  Raise e ≫= k = Raise e.
Proof. done. Qed.

(** ** Dictionaries *)

Section PyDictFacts.
Context {V : Type}.
Implicit Types (es : list (option (pystr * V))) (d : pydict V).

Lemma live_from_0 d : live_from 0 (dk_entries d) = ma_used d.
Proof. done. Qed.

Lemma next_slot_Some pos es i k :
  next_slot pos es = Some (i, k) →
  k ∈ (live es).*1 ∧ live_from pos es = S (live_from (S i) es).
Proof.
  revert pos i k. induction es as [|e es IH]; intros pos i k; simpl; [done|].
  destruct pos as [|pos].
  - destruct e as [[k' v]|].
    + intros [= <- <-]. split; [simpl; left|done].
    + destruct (next_slot 0 es) as [[i' k'']|] eqn:E; simpl; [|done].
      intros [= <- <-]. destruct (IH 0%nat i' k'' E) as [Hk Hl].
      split; [done|]. unfold live_from in *. rewrite drop_0 in *. exact Hl.
  - destruct (next_slot pos es) as [[i' k'']|] eqn:E; simpl; [|done].
    intros [= <- <-]. destruct (IH pos i' k'' E) as [Hk Hl].
    split; [|done]. destruct e as [[??]|]; simpl; [by right|done].
Qed.

(** A loop that finds nothing to rename hands every key out once and
    returns the dictionary as it was. *)
Lemma rename_loop_noop (attr_map : gmap pystr pystr) d len pos :
  (∀ k, k ∈ dict_keys d → attr_map !! k = None) →
  (live_from pos (dk_entries d) ≤ len)%nat →
  rename_loop len (ma_used d) pos attr_map d = Ok d.
Proof.
  intros Hkeys. revert pos.
  induction len as [|len IH]; intros pos Hlen; simpl;
    rewrite bool_decide_eq_true_2 by done;
    destruct (next_slot pos (dk_entries d)) as [[i attr]|] eqn:E; try done;
    destruct (next_slot_Some _ _ _ _ E) as [Hin Hl].
  - lia.
  - rewrite (Hkeys attr Hin). apply IH. lia.
Qed.

Lemma canonicalize_attrs_noop (attr_map : gmap pystr pystr) d :
  (∀ k, k ∈ dict_keys d → attr_map !! k = None) →
  canonicalize_attrs d attr_map = Ok d.
Proof. intros H. apply rename_loop_noop; [done|]. by rewrite live_from_0. Qed.

End PyDictFacts.

Lemma MAP_ATTRS_lookup_Some k v :
  MAP_ATTRS !! k = Some v → k ∈ variant_keys.
Proof.
  intros H. apply elem_of_list_to_map_2 in H.
  apply (list_elem_of_fmap_2 fst) in H. exact H.
Qed.

(** ** The Normalizer *)

Lemma attr_s_first_value entry a :
  attr_s entry a = match first_value entry a with
                   | Some v => utf8_decode v
                   | None => Ok []
                   end.
Proof.
  unfold attr_s, first_value, dict_contains, dict_getitem.
  destruct (dict_get a entry) as [[|v vs]|] eqn:E; done.
Qed.

(** ** The Builder *)

Lemma loop_body_normalize org dn entry :
  loop_body org (Some dn) entry
  = r ← normalize entry; Ok (add_record org dn r).
Proof.
  unfold loop_body, normalize.
  destruct (canonicalize_attrs entry MAP_ATTRS) as [e|]; simpl; [|done].
  destruct (attr_s e (py "displayName")); simpl; [|done].
  destruct (attr_s e (py "title")); simpl; [|done].
  destruct (attr_s e (py "manager")); simpl; [|done].
  by destruct (attr_s e (py "departmentNumber")).
Qed.

(** The loop raises exactly when the Normalizer raises on some entry, with
    the exception of the first such entry; otherwise it adds the records
    one by one. *)
Lemma for_result_records_eq result : ∀ org,
  for_result org result
  = recs ← records_of result; Ok (build_from org recs).
Proof.
  induction result as [|[[dn|] entry] rest IH]; intros org;
    cbn [for_result records_of]; [done| |apply IH].
  rewrite loop_body_normalize.
  destruct (normalize entry) as [r|];
    rewrite ?res_bind_Ok_l, ?res_bind_Raise_l; [|done].
  rewrite IH. by destruct (records_of rest).
Qed.

Lemma for_result_records result org recs :
  records_of result = Ok recs →
  for_result org result = Ok (build_from org recs).
Proof. intros H. by rewrite for_result_records_eq, H. Qed.

Lemma result_to_org_raises result e :
  result_to_org result None = Raise e ↔ records_of result = Raise e.
Proof.
  unfold result_to_org. rewrite for_result_records_eq.
  destruct (records_of result);
    rewrite ?res_bind_Ok_l, ?res_bind_Raise_l;
    [split; intros [=]|split; intros [= ->]; done].
Qed.

Lemma build_from_snoc org recs dn r :
  build_from org (recs ++ [(dn, r)]) = add_record (build_from org recs) dn r.
Proof. unfold build_from. by rewrite foldl_app. Qed.

(** *** Grouping *)

Lemma setdefault_append_keys k x (d : odict) :
  (setdefault_append k x d).*1
  = if decide (k ∈ d.*1) then d.*1 else d.*1 ++ [k].
Proof.
  induction d as [|[k' l] d IH].
  - destruct (decide (k ∈ ([] : odict).*1)) as [H|H]; [|done].
    by apply elem_of_nil in H.
  - cbn [setdefault_append]. rewrite !fmap_cons. cbn [fst].
    destruct (decide (k' = k)) as [->|Hne].
    + rewrite fmap_cons. cbn [fst].
      destruct (decide (k ∈ k :: d.*1)) as [H|H]; [done|].
      destruct H. by left.
    + rewrite fmap_cons, IH. cbn [fst].
      destruct (decide (k ∈ d.*1)) as [H|H],
               (decide (k ∈ k' :: d.*1)) as [H'|H']; try done.
      * destruct H'. by right.
      * apply elem_of_cons in H' as [?|?]; congruence.
Qed.

Lemma assoc_setdefault_append k x (d : odict) m :
  assoc m (setdefault_append k x d)
  = if decide (m = k) then Some (default [] (assoc k d) ++ [x])
    else assoc m d.
Proof.
  induction d as [|[k' l] d IH]; simpl.
  - destruct (decide (k = m)), (decide (m = k)); congruence.
  - destruct (decide (k' = k)) as [->|Hne]; simpl.
    + destruct (decide (k = m)), (decide (m = k)); congruence.
    + rewrite IH.
      destruct (decide (k' = m)), (decide (m = k)); congruence.
Qed.

Lemma assoc_Some_elem_of {V} k (v : V) (l : list (pystr * V)) :
  assoc k l = Some v → (k, v) ∈ l.
Proof.
  induction l as [|[k' v'] l IH]; simpl; [done|].
  destruct (decide (k' = k)) as [->|].
  - intros [= ->]. by left.
  - intros H. right. by apply IH.
Qed.

Lemma elem_of_assoc_NoDup {V} k (v : V) (l : list (pystr * V)) :
  NoDup l.*1 → (k, v) ∈ l → assoc k l = Some v.
Proof.
  induction l as [|[k' v'] l IH]; simpl.
  - by intros _ ?%elem_of_nil.
  - intros [Hnin Hnd]%NoDup_cons [[= -> ->]|Hin]%elem_of_cons.
    + by rewrite decide_True.
    + rewrite decide_False; [by apply IH|].
      intros ->. apply Hnin. by apply (list_elem_of_fmap_2 fst) in Hin.
Qed.

Lemma first_seen_snoc l x :
  first_seen (l ++ [x])
  = if decide (x ∈ l) then first_seen l else first_seen l ++ [x].
Proof.
  unfold first_seen. rewrite reverse_app. simpl.
  destruct (decide_rel elem_of x (reverse l)) as [Hin|Hnin].
  - rewrite decide_True; [done|]. by apply elem_of_reverse.
  - rewrite decide_False; [by rewrite reverse_cons|].
    by rewrite <-elem_of_reverse.
Qed.

Lemma elem_of_first_seen l x : x ∈ first_seen l ↔ x ∈ l.
Proof.
  unfold first_seen.
  by rewrite elem_of_reverse, elem_of_remove_dups, elem_of_reverse.
Qed.

Lemma NoDup_first_seen l : NoDup (first_seen l).
Proof.
  unfold first_seen. rewrite reverse_Permutation. apply NoDup_remove_dups.
Qed.

Lemma truthy_nonempty (s : pystr) : truthy s = true ↔ s ≠ [].
Proof. by destruct s. Qed.

Lemma members_snoc f m recs dn r :
  members f m (recs ++ [(dn, r)])
  = if decide (f r = m) then members f m recs ++ [dn] else members f m recs.
Proof.
  unfold members. rewrite filter_app, fmap_app.
  destruct (decide (f r = m)) as [Heq|Hne].
  - by rewrite filter_cons_True.
  - rewrite filter_cons_False by done. by rewrite app_nil_r.
Qed.

Lemma field_values_snoc f recs dn r :
  field_values f (recs ++ [(dn, r)])
  = if truthy (f r) then field_values f recs ++ [f r]
    else field_values f recs.
Proof.
  unfold field_values. rewrite fmap_app, filter_app. simpl.
  destruct (f r) eqn:E; simpl.
  - rewrite filter_cons_False by (by intros H; apply H). by rewrite app_nil_r.
  - by rewrite filter_cons_True.
Qed.

Lemma grouped_nil f : grouped f [] [].
Proof. split; [done|]. intros m. unfold group_of. by destruct (truthy m). Qed.

Lemma grouped_snoc f recs table dn r :
  grouped f recs table →
  grouped f (recs ++ [(dn, r)])
          (if truthy (f r) then setdefault_append (f r) dn table else table).
Proof.
  intros [Hkeys Hget]. split.
  - rewrite field_values_snoc. destruct (truthy (f r)) eqn:Ht; [|done].
    rewrite setdefault_append_keys, first_seen_snoc, Hkeys.
    destruct (decide (f r ∈ field_values f recs)) as [Hin|Hnin].
    + rewrite decide_True; [done|]. by apply elem_of_first_seen.
    + rewrite decide_False; [done|]. by rewrite elem_of_first_seen.
  - intros m. unfold group_of. rewrite members_snoc.
    destruct (truthy (f r)) eqn:Ht.
    + rewrite assoc_setdefault_append.
      destruct (decide (m = f r)) as [->|Hne].
      * rewrite Ht, decide_True by done. rewrite Hget. unfold group_of.
        rewrite Ht. by destruct (members f (f r) recs).
      * rewrite decide_False by done. apply Hget.
    + rewrite Hget. unfold group_of.
      destruct (truthy m) eqn:Hm; [|done].
      rewrite decide_False; [done|]. intros Heq. rewrite Heq in Ht. congruence.
Qed.

Lemma last_record_snoc id recs dn r :
  last_record id (recs ++ [(dn, r)])
  = if decide (dn = id) then Some r else last_record id recs.
Proof.
  unfold last_record. rewrite filter_app.
  destruct (decide (dn = id)) as [Heq|Hne].
  - rewrite filter_cons_True, filter_nil by done. by rewrite last_snoc.
  - rewrite filter_cons_False, filter_nil by done. by rewrite app_nil_r.
Qed.

(** What the tables hold after the records [recs], starting from empty
    tables. *)
Lemma build_from_tables recs :
  let org := build_from empty_org recs in
  grouped rec_manager recs (reports_to org) ∧
  grouped rec_department recs (depts org) ∧
  (∀ id, display_name org !! id = rec_name <$> last_record id recs) ∧
  (∀ id, title_of org !! id = rec_title <$> last_record id recs).
Proof.
  induction recs as [|[dn r] recs IH] using rev_ind; simpl.
  - split_and!; try apply grouped_nil; intros id; apply lookup_empty.
  - rewrite build_from_snoc. destruct IH as (Hm & Hd & Hn & Ht).
    split_and!; simpl.
    + by apply grouped_snoc.
    + by apply grouped_snoc.
    + intros id. rewrite last_record_snoc, lookup_insert.
      destruct (decide (dn = id)); [done|apply Hn].
    + intros id. rewrite last_record_snoc, lookup_insert.
      destruct (decide (dn = id)); [done|apply Ht].
Qed.

Lemma result_to_org_build result recs :
  records_of result = Ok recs →
  result_to_org result None = Ok (build_from empty_org recs).
Proof. apply for_result_records. Qed.

Lemma group_of_Some f m recs l :
  group_of f m recs = Some l → m ≠ [] ∧ l = members f m recs.
Proof.
  unfold group_of. destruct (truthy m) eqn:Hm; [|done].
  apply truthy_nonempty in Hm.
  destruct (members f m recs); [done|]. by intros [= <-].
Qed.

Lemma group_of_members f m recs id :
  m ≠ [] → id ∈ members f m recs → group_of f m recs = Some (members f m recs).
Proof.
  intros Hm%truthy_nonempty Hin. unfold group_of. rewrite Hm.
  destruct (members f m recs); [|done]. by apply elem_of_nil in Hin.
Qed.

Lemma elem_of_members f m recs id :
  id ∈ members f m recs ↔ ∃ r, (id, r) ∈ recs ∧ f r = m.
Proof.
  unfold members. rewrite list_elem_of_fmap. split.
  - intros ([id' r] & -> & [Hf Hin]%list_elem_of_filter). by exists r.
  - intros (r & Hin & Hf). exists (id, r). split; [done|].
    by apply list_elem_of_filter.
Qed.

Lemma grouped_elem_of f recs table m l :
  grouped f recs table → (m, l) ∈ table → m ≠ [] ∧ l = members f m recs.
Proof.
  intros [Hkeys Hget] Hin. apply group_of_Some. rewrite <-Hget.
  apply elem_of_assoc_NoDup; [|done].
  rewrite Hkeys. apply NoDup_first_seen.
Qed.

Lemma count_members f m recs id :
  length (filter (λ x, x = id) (members f m recs))
  = length (filter (λ p, p.1 = id ∧ f p.2 = m) recs).
Proof.
  unfold members. induction recs as [|[dn r] recs IH]; [done|].
  destruct (decide (f r = m)) as [Hf|Hf].
  - rewrite (filter_cons_True (λ p, f p.2 = m)) by done. rewrite fmap_cons.
    destruct (decide (dn = id)) as [Hd|Hd].
    + rewrite !filter_cons_True by done. simpl. by rewrite IH.
    + rewrite !filter_cons_False by (simpl; tauto). done.
  - rewrite (filter_cons_False (λ p, f p.2 = m)) by done.
    rewrite (filter_cons_False (λ p, p.1 = id ∧ f p.2 = m)) by (simpl; tauto).
    done.
Qed.

Lemma NoDup_fst_unique {A B} (l : list (A * B)) x y1 y2 :
  NoDup l.*1 → (x, y1) ∈ l → (x, y2) ∈ l → y1 = y2.
Proof.
  induction l as [|[a b] l IH]; simpl.
  - by intros _ ?%elem_of_nil.
  - intros [Hnin Hnd]%NoDup_cons H1 H2.
    apply elem_of_cons in H1 as [E1|H1];
      apply elem_of_cons in H2 as [E2|H2]; simplify_eq; try done.
    + destruct Hnin. by apply (list_elem_of_fmap_2 fst) in H2.
    + destruct Hnin. by apply (list_elem_of_fmap_2 fst) in H1.
    + by apply IH.
Qed.

Lemma lookup_lt_split {A} (l : list A) i j x y :
  (i < j)%nat → l !! i = Some x → l !! j = Some y →
  ∃ l1 l2 l3, l = l1 ++ x :: l2 ++ y :: l3.
Proof.
  intros Hij Hi Hj.
  assert (drop (S i) l !! (j - S i)%nat = Some y) as Hd.
  { rewrite lookup_drop. by replace (S i + (j - S i))%nat with j by lia. }
  exists (take i l), (take (j - S i) (drop (S i) l)),
         (drop (S (j - S i)) (drop (S i) l)).
  rewrite (take_drop_middle _ _ _ Hd). by rewrite (take_drop_middle _ _ _ Hi).
Qed.

(** Filtering keeps the elements it keeps in their order. *)
Lemma filter_keeps_order {A} (P : A → Prop) `{!∀ x, Decision (P x)}
    (l : list A) i j x y :
  (i < j)%nat → l !! i = Some x → l !! j = Some y → P x → P y →
  ∃ i' j', (i' < j')%nat ∧ filter P l !! i' = Some x
           ∧ filter P l !! j' = Some y.
Proof.
  intros Hij Hi Hj Hx Hy.
  destruct (lookup_lt_split l i j x y Hij Hi Hj) as (l1 & l2 & l3 & ->).
  exists (length (filter P l1)),
         (length (filter P l1) + S (length (filter P l2)))%nat.
  rewrite !filter_app, !filter_cons_True, !filter_app, !filter_cons_True
    by done.
  split_and!; [lia| |].
  - by rewrite list_lookup_middle.
  - rewrite lookup_app_r by lia.
    replace (length (filter P l1) + S (length (filter P l2))
             - length (filter P l1))%nat
      with (S (length (filter P l2))) by lia.
    simpl. by rewrite list_lookup_middle.
Qed.

Lemma filter_none {A} (P : A → Prop) `{!∀ x, Decision (P x)} (l : list A) :
  (∀ x, x ∈ l → ¬ P x) → filter P l = [].
Proof.
  induction l as [|x l IH]; intros Hl; [done|].
  rewrite filter_cons_False by (apply Hl; by left).
  apply IH. intros y Hy. apply Hl. by right.
Qed.

(** ** Display name and title *)

(** C1 (amended).  For every identifier whose leading component
    [dn_to_ident] can compute, the displayed name is the name stored under
    the identifier whenever the identifier is a key of the display-name
    table, also when that name is the empty string, and the leading
    component of the identifier (the first element of
    [explode_dn dn true]) when the identifier is not a key. *)
Theorem name_s_resolution (explode_dn : pystr → bool → res (list pystr))
    (dn : pystr) (display_name : gmap pystr pystr) (ident : pystr) :
  dn_to_ident explode_dn dn = Ok ident →
  name_s explode_dn dn display_name
  = Ok (match display_name !! dn with
        | Some name => name
        | None => ident
        end).
Proof. intros H. unfold name_s. rewrite H. by destruct (display_name !! dn). Qed.

Lemma name_s_resolution_witness :
  dn_to_ident explode_dn_plain (py "cn=a,dc=x") = Ok (py "a") ∧
  name_s explode_dn_plain (py "cn=a,dc=x") {[ py "cn=a,dc=x" := py "Ann" ]}
  = Ok (match ({[ py "cn=a,dc=x" := py "Ann" ]} : gmap pystr pystr)
                !! py "cn=a,dc=x" with
        | Some name => name
        | None => py "a"
        end).
Proof.
  split; [reflexivity|].
  apply (name_s_resolution explode_dn_plain (py "cn=a,dc=x")
           {[ py "cn=a,dc=x" := py "Ann" ]} (py "a")).
  reflexivity.
Defined.

(** C1, as stated, fails: a record whose display name is empty is shown
    with the empty name, not with the leading component of its
    identifier. *)
Lemma name_s_empty_name_not_fallback :
  name_s explode_dn_plain (py "cn=a") {[ py "cn=a" := [] ]} = Ok [] ∧
  name_spec explode_dn_plain (py "cn=a") {[ py "cn=a" := [] ]} = Ok (py "a") ∧
  name_s explode_dn_plain (py "cn=a") {[ py "cn=a" := [] ]}
  ≠ name_spec explode_dn_plain (py "cn=a") {[ py "cn=a" := [] ]}.
Proof. split_and!; [by vm_compute|by vm_compute|]. vm_compute. discriminate. Qed.

(** Seen from the input: an entry without [displayName] stores the empty
    name under its identifier, and the label starts with an empty line. *)
Example nameless_label :
  ∃ org, result_to_org nameless None = Ok org ∧
    display_name org !! py "cn=a,dc=x" = Some [] ∧
    name_and_title explode_dn_plain (py "cn=a,dc=x")
                   (display_name org) (title_of org)
    = Ok (nl ++ py "Dev").
Proof. eexists. split_and!; by vm_compute. Qed.

(** The default of [dict.get] is computed before the lookup: an identifier
    that [explode_dn] rejects cannot be rendered, stored name or not. *)
Lemma name_s_raises (explode_dn : pystr → bool → res (list pystr))
    (dn : pystr) (display_name : gmap pystr pystr) (e : exn) :
  dn_to_ident explode_dn dn = Raise e →
  name_s explode_dn dn display_name = Raise e.
Proof. intros H. unfold name_s. by rewrite H. Qed.

(** The fixed text is shown for an absent identifier, or because it is the
    stored title itself. *)
Lemma title_s_missing_inv (dn : pystr) (title_of : gmap pystr pystr) :
  title_s dn title_of = missing_title →
  title_of !! dn = None ∨ title_of !! dn = Some missing_title.
Proof.
  unfold title_s. destruct (title_of !! dn) as [t|]; simpl; [|by left].
  intros ->. by right.
Qed.

(** C5 (amended).  The displayed title is the title stored under the
    identifier whenever the identifier is a key of the title table, the
    empty string included, and the fixed text "(missing from database)"
    when the identifier is not a key; the fixed text is displayed exactly
    when the identifier is not a key or the title stored under it is that
    same text. *)
Theorem title_s_resolution (dn : pystr) (title_of : gmap pystr pystr) :
  title_s dn title_of = match title_of !! dn with
                        | Some title => title
                        | None => missing_title
                        end
  ∧ title_s dn (<[dn := []]> title_of) = []
  ∧ title_s dn (delete dn title_of) = missing_title
  ∧ missing_title ≠ []
  ∧ (title_s dn title_of = missing_title
     ↔ title_of !! dn = None ∨ title_of !! dn = Some missing_title).
Proof.
  split_and!.
  - unfold title_s. by destruct (title_of !! dn).
  - unfold title_s. by rewrite lookup_insert_eq.
  - unfold title_s. by rewrite lookup_delete_eq.
  - done.
  - split; [apply title_s_missing_inv|].
    unfold title_s. by intros [->| ->].
Qed.

(** C5, as stated, fails: the fixed text is displayed for an identifier
    that is a key of the title table, when the title stored under it is
    that text. *)
Lemma title_s_stored_missing_title :
  title_s (py "cn=a") {[ py "cn=a" := missing_title ]} = missing_title ∧
  ({[ py "cn=a" := missing_title ]} : gmap pystr pystr) !! py "cn=a"
  = Some missing_title ∧
  ¬ (title_s (py "cn=a") {[ py "cn=a" := missing_title ]} = missing_title
     ↔ ({[ py "cn=a" := missing_title ]} : gmap pystr pystr) !! py "cn=a"
       = None).
Proof.
  split_and!; [by vm_compute|by vm_compute|].
  intros [H _]. specialize (H ltac:(by vm_compute)).
  revert H. by vm_compute.
Qed.

(** Seen from the input: a record whose title is that text. *)
Example stored_missing_title_label :
  ∃ org,
    result_to_org
      [ (Some (py "cn=a"),
         entry_of [("displayName", ["Ann"]);
                   ("title", ["(missing from database)"])]%string) ] None
    = Ok org ∧
    title_of org !! py "cn=a" = Some missing_title ∧
    name_and_title explode_dn_plain (py "cn=a")
                   (display_name org) (title_of org)
    = Ok (py "Ann" ++ nl ++ missing_title).
Proof. eexists. split_and!; by vm_compute. Qed.

(** ** The Normalizer *)

Lemma attr_s_decodable entry a :
  decodable entry a = true →
  ∃ s, attr_s entry a = Ok s ∧
       match first_value entry a with
       | Some v => utf8_decode v = Ok s
       | None => s = []
       end.
Proof.
  unfold decodable. rewrite attr_s_first_value.
  destruct (first_value entry a) as [v|]; [|by exists []].
  destruct (utf8_decode v) as [s|]; [|done]. by exists s.
Qed.

(** C2 (amended).  Whenever the renaming pass returns and the first value
    of each attribute that is read is well-formed UTF-8, the Normalizer
    returns a record; each field is the decoded first value of its
    attribute, and the empty string when the attribute is absent or has an
    empty value list. *)
Theorem normalize_total_on_utf8 entry entry' :
  canonicalize_attrs entry MAP_ATTRS = Ok entry' →
  forallb (decodable entry') read_attrs.*1 = true →
  ∃ r, normalize entry = Ok r ∧
       Forall (λ af, match first_value entry' af.1 with
                     | Some v => utf8_decode v = Ok (af.2 r)
                     | None => af.2 r = []
                     end) read_attrs.
Proof.
  intros Hren Hdec. cbn [read_attrs fmap list_fmap fst forallb] in Hdec.
  repeat (apply andb_prop in Hdec as [? Hdec]).
  destruct (attr_s_decodable entry' (py "displayName")) as (n & Hn & Fn); [done|].
  destruct (attr_s_decodable entry' (py "title")) as (t & Ht & Ft); [done|].
  destruct (attr_s_decodable entry' (py "manager")) as (m & Hm & Fm); [done|].
  destruct (attr_s_decodable entry' (py "departmentNumber"))
    as (d & Hd & Fd); [done|].
  exists (Rec n t m d). split.
  - unfold normalize. rewrite Hren, res_bind_Ok_l, Hn, res_bind_Ok_l, Ht,
      res_bind_Ok_l, Hm, res_bind_Ok_l, Hd. done.
  - unfold read_attrs. repeat constructor; done.
Qed.

Lemma normalize_total_on_utf8_witness :
  canonicalize_attrs ad_entry MAP_ATTRS = Ok ad_entry_renamed ∧
  forallb (decodable ad_entry_renamed) read_attrs.*1 = true ∧
  ∃ r, normalize ad_entry = Ok r ∧
       Forall (λ af, match first_value ad_entry_renamed af.1 with
                     | Some v => utf8_decode v = Ok (af.2 r)
                     | None => af.2 r = []
                     end) read_attrs.
Proof.
  assert (canonicalize_attrs ad_entry MAP_ATTRS = Ok ad_entry_renamed) as H1
    by (vm_compute; reflexivity).
  assert (forallb (decodable ad_entry_renamed) read_attrs.*1 = true) as H2
    by (vm_compute; reflexivity).
  split; [exact H1|]. split; [exact H2|].
  exact (normalize_total_on_utf8 ad_entry ad_entry_renamed H1 H2).
Defined.

(** C2, as stated, fails: a value that is not UTF-8 makes the Normalizer
    raise. *)
Lemma normalize_bad_title_raises :
  normalize bad_title = Raise UnicodeDecodeError ∧
  ¬ ∃ r, normalize bad_title = Ok r.
Proof.
  assert (normalize bad_title = Raise UnicodeDecodeError) as H
    by (vm_compute; reflexivity).
  split; [exact H|]. intros [r Hr]. rewrite H in Hr. discriminate.
Qed.

(** Absent attribute, empty value list: the empty string, whatever else the
    entry holds. *)
Lemma attr_s_absent entry a :
  first_value entry a = None → attr_s entry a = Ok [].
Proof. intros H. by rewrite attr_s_first_value, H. Qed.

(** The renaming pass itself raises on the plainest Active Directory
    entry: the renamed key is appended behind the iterator's position and
    found there after the last expected key. *)
Example canonicalize_attrs_department_raises :
  canonicalize_attrs (entry_of [("department", ["Eng"])]%string) MAP_ATTRS
  = Raise RuntimeError_keys_changed.
Proof. vm_compute. reflexivity. Qed.

(** With both spellings of an attribute present the dictionary shrinks. *)
Example canonicalize_attrs_both_raises :
  canonicalize_attrs
    (entry_of [("department", ["Eng"]); ("departmentNumber", ["7"])]%string)
    MAP_ATTRS
  = Raise RuntimeError_changed_size.
Proof. vm_compute. reflexivity. Qed.

(** With five attributes the array is rebuilt when [company] is renamed and
    the iterator steps over [department], which keeps its name. *)
Example canonicalize_attrs_skips_department :
  dict_keys <$>
    (match canonicalize_attrs
             (entry_of [("displayName", ["Ann"]); ("title", ["Dev"]);
                        ("manager", ["cn=b"]); ("company", ["ACME"]);
                        ("department", ["Eng"])]%string) MAP_ATTRS with
     | Ok d => Some d
     | Raise _ => None
     end)
  = Some (py <$> ["displayName"; "title"; "manager"; "department"; "o"]%string).
Proof. vm_compute. reflexivity. Qed.

(** C9.  Renaming an entry that has none of the keys [department],
    [comment], [company], [employeeID], [thumbnailPhoto], [streetaddress]
    returns the entry unchanged. *)
Theorem canonicalize_attrs_canonical_noop (entry : entry_t) :
  forallb (λ k, negb (dict_contains k entry)) variant_keys = true →
  canonicalize_attrs entry MAP_ATTRS = Ok entry.
Proof.
  intros H. apply canonicalize_attrs_noop. intros k Hk.
  destruct (MAP_ATTRS !! k) as [v|] eqn:E; [|done]. exfalso.
  apply MAP_ATTRS_lookup_Some in E.
  rewrite forallb_forall in H. apply list_elem_of_In, H in E.
  apply negb_true_iff, bool_decide_eq_false in E. apply E.
  unfold dict_keys in Hk. apply list_elem_of_fmap in Hk as ([k' v'] & -> & Hin).
  unfold dict_get. clear -Hin. simpl.
  induction (dict_items entry) as [|[k1 v1] l IH]; simpl.
  - by apply elem_of_nil in Hin.
  - destruct (decide (k1 = k')); [by eexists|].
    apply elem_of_cons in Hin as [?|Hin]; [congruence|by apply IH].
Qed.

Lemma canonicalize_attrs_canonical_noop_witness :
  forallb (λ k, negb (dict_contains k inetorg_entry)) variant_keys = true ∧
  canonicalize_attrs inetorg_entry MAP_ATTRS = Ok inetorg_entry.
Proof.
  split; [reflexivity|].
  apply (canonicalize_attrs_canonical_noop inetorg_entry). reflexivity.
Defined.

(** ** The Builder: the claims *)

(** C3 (amended).  For every input sequence whose entries the Normalizer
    accepts, repeated identifiers included, the Builder returns tables in
    which: the display name and the title of an identifier are those of its
    last record; the keys of [reports_to] and of [depts] are the managers
    and the departments in the order of their first occurrence; the group
    of a manager lists the identifiers of the records naming that manager,
    in input order, so that an identifier occurs in the group as many times
    as the input has records with that identifier and that manager. *)
Theorem result_to_org_tables result recs :
  records_of result = Ok recs →
  ∃ org, result_to_org result None = Ok org ∧
    (∀ id, display_name org !! id = rec_name <$> last_record id recs) ∧
    (∀ id, title_of org !! id = rec_title <$> last_record id recs) ∧
    (reports_to org).*1 = first_seen (field_values rec_manager recs) ∧
    (depts org).*1 = first_seen (field_values rec_department recs) ∧
    (∀ m, assoc m (reports_to org) = group_of rec_manager m recs) ∧
    (∀ d, assoc d (depts org) = group_of rec_department d recs) ∧
    (∀ m group id, (m, group) ∈ reports_to org →
       occurrences id group
       = length (filter (λ p, p.1 = id ∧ rec_manager p.2 = m) recs)).
Proof.
  intros Hrecs. exists (build_from empty_org recs).
  destruct (build_from_tables recs) as ([Hmk Hmg] & [Hdk Hdg] & Hn & Ht).
  split_and!; try done.
  - by apply result_to_org_build.
  - intros m group id Hin.
    destruct (grouped_elem_of rec_manager recs _ m group (conj Hmk Hmg) Hin)
      as [_ ->].
    apply count_members.
Qed.

Lemma result_to_org_tables_witness :
  records_of ann_twice = Ok ann_twice_records ∧
  ∃ org, result_to_org ann_twice None = Ok org ∧
    (∀ id, display_name org !! id
           = rec_name <$> last_record id ann_twice_records) ∧
    (∀ id, title_of org !! id
           = rec_title <$> last_record id ann_twice_records) ∧
    (reports_to org).*1
      = first_seen (field_values rec_manager ann_twice_records) ∧
    (depts org).*1
      = first_seen (field_values rec_department ann_twice_records) ∧
    (∀ m, assoc m (reports_to org)
          = group_of rec_manager m ann_twice_records) ∧
    (∀ d, assoc d (depts org)
          = group_of rec_department d ann_twice_records) ∧
    (∀ m group id, (m, group) ∈ reports_to org →
       occurrences id group
       = length (filter (λ p, p.1 = id ∧ rec_manager p.2 = m)
                        ann_twice_records)).
Proof.
  assert (records_of ann_twice = Ok ann_twice_records) as H
    by (vm_compute; reflexivity).
  split; [exact H|].
  exact (result_to_org_tables ann_twice ann_twice_records H).
Defined.

(** C3, as stated, fails: an identifier that the input carries twice with
    the same manager is listed twice in the group of that manager. *)
Lemma repeated_report_listed_twice :
  ∃ org group,
    result_to_org ann_twice None = Ok org ∧
    assoc (py "cn=m") (reports_to org) = Some group ∧
    group = [py "cn=a"; py "cn=a"] ∧
    occurrences (py "cn=a") group = 2%nat.
Proof.
  exists (build_from empty_org ann_twice_records), [py "cn=a"; py "cn=a"].
  split_and!; [|by vm_compute|done|by vm_compute].
  apply result_to_org_build. vm_compute. reflexivity.
Qed.

(** With identifiers that do not repeat, a report is listed once. *)
Corollary report_listed_once result recs org m group id r :
  records_of result = Ok recs →
  NoDup recs.*1 →
  result_to_org result None = Ok org →
  (id, r) ∈ recs → rec_manager r = m →
  (m, group) ∈ reports_to org →
  occurrences id group = 1%nat.
Proof.
  intros Hrecs Hnd Horg Hin Hm Hg.
  rewrite (result_to_org_build _ _ Hrecs) in Horg. injection Horg as <-.
  destruct (build_from_tables recs) as (Hgm & _).
  destruct (grouped_elem_of _ _ _ _ _ Hgm Hg) as [_ ->].
  unfold occurrences. rewrite count_members. clear Hg Hgm Hrecs.
  induction recs as [|[dn r'] recs IH]; [by apply elem_of_nil in Hin|].
  apply NoDup_cons in Hnd as [Hnin Hnd].
  apply elem_of_cons in Hin as [Heq|Hin].
  - injection Heq as <- <-. rewrite filter_cons_True by done.
    rewrite filter_none; [done|].
    intros [dn' r''] Hin' [Hid _]. simpl in Hid.
    subst dn'. apply Hnin. by apply (list_elem_of_fmap_2 fst) in Hin'.
  - rewrite filter_cons_False; [by apply IH|].
    intros [Hid _]. simpl in Hid. subst dn.
    apply Hnin. by apply (list_elem_of_fmap_2 fst) in Hin.
Qed.

(** The scenario of the design: one cluster [Eng] with both identifiers in
    input order, one edge group from the manager to the report. *)
Example alice_bob_tables :
  ∃ org, result_to_org alice_bob None = Ok org ∧
    depts org = [(py "Eng", [py "cn=a"; py "cn=b"])] ∧
    reports_to org = [(py "cn=b", [py "cn=a"])].
Proof.
  exists (build_from empty_org alice_bob_records). split_and!; [|done..].
  apply result_to_org_build. vm_compute. reflexivity.
Qed.

(** ** The Renderer *)

(** C8.  The empty input gives tables that are all empty, and the empty
    tables are rendered as the head of the graph followed by its closing
    brace: no cluster, no edge group. *)
Theorem empty_input_empty_chart
    (explode_dn : pystr → bool → res (list pystr))
    (is_word : N → bool) (str_lower : pystr → pystr) :
  ∃ org, result_to_org [] None = Ok org ∧
    (reports_to org = [] ∧ depts org = [] ∧ dept_of org = ∅ ∧
     title_of org = ∅ ∧ mgr_of org = ∅ ∧ display_name org = ∅) ∧
    render explode_dn is_word str_lower org
    = Ok (template_head ++ template_foot).
Proof. exists empty_org. split_and!; reflexivity. Qed.

(** *** The slug *)

Section Slug.
Variable is_word : N → bool.
Variable str_lower : pystr → pystr.

(** The runs are a partition of the string ... *)
Lemma runs_concat s : concat ((runs is_word s).*2) = s.
Proof.
  induction s as [|c s IH]; [done|]. cbn [runs].
  destruct (runs is_word s) as [|[w r] rest]; [by destruct s|].
  case_bool_decide; simpl in *; by rewrite <-IH.
Qed.

(** ... each of one kind and not empty ... *)
Lemma runs_uniform s :
  Forall (λ wr, wr.2 ≠ [] ∧ Forall (λ c, is_word c = wr.1) wr.2)
         (runs is_word s).
Proof.
  induction s as [|c s IH]; [constructor|]. cbn [runs].
  destruct (runs is_word s) as [|[w r] rest].
  - repeat constructor; done.
  - apply Forall_cons in IH as [[Hne Hr] Hrest]. simpl in *.
    case_bool_decide; repeat constructor; simpl; try done.
Qed.

(** ... and neighbours are of different kinds: every run is maximal. *)
Lemma runs_alternate s : alternate (runs is_word s).
Proof.
  induction s as [|c s IH]; [done|]. cbn [runs].
  destruct (runs is_word s) as [|[w r] rest]; [done|].
  case_bool_decide; [by destruct rest|]. simpl. split; [congruence|done].
Qed.

(** The scan of [re.sub], outside and inside a match, against the runs. *)
Lemma re_sub_W_runs s :
  re_sub_W is_word false s = concat (replace_run <$> runs is_word s) ∧
  re_sub_W is_word true s
  = match runs is_word s with
    | (false, _) :: rest => concat (replace_run <$> rest)
    | l => concat (replace_run <$> l)
    end.
Proof.
  induction s as [|c s [IHf IHt]]; [done|]. cbn [runs re_sub_W].
  rewrite IHf, IHt.
  destruct (runs is_word s) as [|[w r] rest].
  - by destruct (is_word c).
  - destruct (is_word c), w; simpl; done.
Qed.

(** C6.  For every department string, the cluster identifier is the
    string with every maximal run of non-word characters replaced by one
    underscore, then stripped of leading and trailing underscores, then
    lowercased. *)
Theorem snake_case_slug_spec s :
  snake_case is_word str_lower s = slug_spec is_word str_lower s.
Proof.
  unfold snake_case, slug_spec. by rewrite (proj1 (re_sub_W_runs s)).
Qed.

End Slug.

(** C10.  The slug is not injective: [R&D] and [r d] are different
    department names with the same cluster identifier, and the document
    rendered for an input with both departments has two clusters, labelled
    differently, under that one identifier. *)
Theorem snake_case_not_injective :
  py "R&D" ≠ py "r d" ∧
  snake_case ascii_word ascii_lower (py "R&D") = py "r_d" ∧
  snake_case ascii_word ascii_lower (py "r d") = py "r_d" ∧
  ∃ org,
    result_to_org two_departments None = Ok org ∧
    (depts org).*1 = [py "R&D"; py "r d"] ∧
    snake_case ascii_word ascii_lower <$> (depts org).*1
    = [py "r_d"; py "r_d"] ∧
    render explode_dn_plain ascii_word ascii_lower org
    = Ok (template_head ++
          (nl ++ py "  subgraph cluster_r_d {" ++
           nl ++ py "    label = " ++ dq ++ py "R&D" ++ dq ++ py ";" ++
           nl ++ py "    " ++ dq ++ py "Ann" ++ nl ++ py "Dev" ++ dq ++ py ";" ++
           block_end) ++
          (nl ++ py "  subgraph cluster_r_d {" ++
           nl ++ py "    label = " ++ dq ++ py "r d" ++ dq ++ py ";" ++
           nl ++ py "    " ++ dq ++ py "Bob" ++ nl ++ py "Dev" ++ dq ++ py ";" ++
           block_end) ++
          template_foot).
Proof.
  split_and!; [by vm_compute|by vm_compute|by vm_compute|].
  eexists. split; [by vm_compute|]. split_and!; by vm_compute.
Qed.

(** Any character that is not a word character gives a collision: one such
    character and two of them have the same slug. *)
Lemma snake_case_collision (is_word : N → bool) (str_lower : pystr → pystr)
    (c : N) :
  is_word c = false →
  snake_case is_word str_lower [c] = snake_case is_word str_lower [c; c].
Proof. intros H. unfold snake_case. simpl. by rewrite H. Qed.

(** The document of the scenario. *)
Example alice_bob_document :
  ∃ org, result_to_org alice_bob None = Ok org ∧
    render explode_dn_plain ascii_word ascii_lower org
    = Ok (template_head ++
          nl ++ py "  subgraph cluster_eng {" ++
          nl ++ py "    label = " ++ dq ++ py "Eng" ++ dq ++ py ";" ++
          nl ++ py "    " ++ dq ++ py "Alice" ++ nl ++ py "Dev" ++ dq ++ py ";" ++
          nl ++ py "    " ++ dq ++ py "Bob" ++ nl ++ py "Mgr" ++ dq ++ py ";" ++
          block_end ++
          nl ++ py "  " ++ dq ++ py "Bob" ++ nl ++ py "Mgr" ++ dq ++ py " -> {" ++
          nl ++ py "    " ++ dq ++ py "Alice" ++ nl ++ py "Dev" ++ dq ++
          block_end ++
          template_foot).
Proof. eexists. split; by vm_compute. Qed.

(** A manager who is not in the input is shown with the leading component
    of the identifier and the fixed title. *)
Example dangling_manager_label :
  name_and_title explode_dn_plain (py "cn=boss,dc=x") ∅ ∅
  = Ok (py "boss" ++ nl ++ py "(missing from database)").
Proof. by vm_compute. Qed.

(** * Further properties *)

(** ** Dictionaries: items after an update *)

Section PyDictUpdates.
Context {V : Type}.
Implicit Types (es : list (option (pystr * V))) (d : pydict V).

Lemma live_app es1 es2 : live (es1 ++ es2) = live es1 ++ live es2.
Proof. unfold live. apply omap_app. Qed.

Lemma live_Some (l : list (pystr * V)) : live (Some <$> l) = l.
Proof.
  unfold live. induction l as [|x l IH]; [done|]. csimpl. by f_equal.
Qed.

Lemma assoc_None_not_elem_of k (l : list (pystr * V)) :
  assoc k l = None ↔ k ∉ l.*1.
Proof.
  induction l as [|[k' v] l IH]; simpl.
  - split; [intros _ H; by apply elem_of_nil in H|done].
  - destruct (decide (k' = k)) as [->|Hne].
    + split; [done|]. intros H. destruct H. by left.
    + rewrite IH. split.
      * intros H [?|?]%elem_of_cons; [congruence|done].
      * intros H Hin. apply H. by right.
Qed.

Lemma dict_contains_false k d : dict_contains k d = false ↔ k ∉ dict_keys d.
Proof.
  unfold dict_contains, dict_get, dict_keys.
  rewrite bool_decide_eq_false, <-assoc_None_not_elem_of.
  destruct (assoc k (dict_items d)); split; try done.
  intros H. destruct H. by eexists.
Qed.

Lemma dict_contains_true k d : dict_contains k d = true ↔ k ∈ dict_keys d.
Proof.
  destruct (dict_contains k d) eqn:E.
  - split; [intros _|done]. destruct (decide (k ∈ dict_keys d)); [done|].
    apply dict_contains_false in n. congruence.
  - split; [done|]. intros H. by apply dict_contains_false in E.
Qed.

Lemma live_cons_Some (x : pystr * V) es : live (Some x :: es) = x :: live es.
Proof. done. Qed.

Lemma live_cons_None es : live (None :: es) = live es.
Proof. done. Qed.

(** Emptying the slot of [k] takes the item of [k] away and nothing else. *)
Lemma live_clear_slot k v es :
  assoc k (live es) = Some v →
  ∃ l1 l2, live es = l1 ++ (k, v) :: l2 ∧ live (clear_slot k es) = l1 ++ l2
           ∧ k ∉ l1.*1.
Proof.
  induction es as [|[[k' v']|] es IH]; cbn [clear_slot has_key].
  - done.
  - rewrite live_cons_Some. cbn [assoc].
    destruct (decide (k' = k)) as [->|Hne].
    + intros [= ->]. rewrite bool_decide_eq_true_2 by done.
      exists [], (live es). rewrite live_cons_None.
      split_and!; try done. apply not_elem_of_nil.
    + intros H. rewrite bool_decide_eq_false_2 by done.
      destruct (IH H) as (l1 & l2 & E1 & E2 & Hnin).
      exists ((k', v') :: l1), l2. rewrite live_cons_Some, E1, E2.
      split_and!; try done.
      rewrite fmap_cons. intros [?|?]%elem_of_cons; [simpl in *; congruence|done].
  - rewrite !live_cons_None. intros H.
    destruct (IH H) as (l1 & l2 & E1 & E2 & Hnin). by exists l1, l2.
Qed.

(** Storing under a key that is there changes no key and no position. *)
Lemma live_store_slot_keys k v es :
  (live (store_slot k v es)).*1 = (live es).*1.
Proof.
  induction es as [|[[k' v']|] es IH]; cbn [store_slot has_key].
  - done.
  - case_bool_decide.
    + subst. by rewrite !live_cons_Some, !fmap_cons.
    + by rewrite !live_cons_Some, !fmap_cons, IH.
  - by rewrite !live_cons_None.
Qed.

Lemma dict_items_setitem_fresh k v d :
  k ∉ dict_keys d →
  dict_items (dict_setitem k v d) = dict_items d ++ [(k, v)].
Proof.
  intros Hk%dict_contains_false. unfold dict_setitem. rewrite Hk.
  unfold dict_items. simpl. rewrite live_app.
  destruct (dk_usable d); simpl; [|done].
  by rewrite live_Some.
Qed.

Lemma dict_keys_setitem_present k v d :
  k ∈ dict_keys d → dict_keys (dict_setitem k v d) = dict_keys d.
Proof.
  intros Hk%dict_contains_true. unfold dict_setitem. rewrite Hk.
  unfold dict_keys, dict_items. simpl. apply live_store_slot_keys.
Qed.

Lemma dict_keys_setitem k v d :
  dict_keys (dict_setitem k v d)
  = if decide (k ∈ dict_keys d) then dict_keys d else dict_keys d ++ [k].
Proof.
  destruct (decide (k ∈ dict_keys d)) as [H|H].
  - by apply dict_keys_setitem_present.
  - unfold dict_keys. rewrite dict_items_setitem_fresh by done.
    by rewrite fmap_app.
Qed.

Lemma ma_used_keys d : ma_used d = length (dict_keys d).
Proof. unfold ma_used, dict_keys. by rewrite length_fmap. Qed.

Lemma dict_pop_items k d v d' :
  dict_pop k d = Ok (v, d') →
  ∃ l1 l2, dict_items d = l1 ++ (k, v) :: l2 ∧ dict_items d' = l1 ++ l2
           ∧ (k ∉ l1.*1) ∧ dk_usable d' = dk_usable d.
Proof.
  unfold dict_pop, dict_get.
  destruct (assoc k (dict_items d)) as [v0|] eqn:E; [|done].
  intros [= <- <-].
  destruct (live_clear_slot k v0 _ E) as (l1 & l2 & E1 & E2 & Hnin).
  by exists l1, l2.
Qed.

Lemma next_slot_dict_get pos es i k :
  next_slot pos es = Some (i, k) → is_Some (assoc k (live es)).
Proof.
  intros [Hin _]%next_slot_Some.
  destruct (assoc k (live es)) eqn:E; [by eexists|].
  by apply assoc_None_not_elem_of in E.
Qed.

End PyDictUpdates.

(** ** [canonicalize_attrs]: what a pass that returns has kept *)

Section RenameKeeps.
Context {V : Type}.
Implicit Types (d : pydict V) (attr_map : gmap pystr pystr).

Lemma rename_loop_unfold len u pos attr_map d :
  rename_loop len u pos attr_map d
  = if bool_decide (u = ma_used d) then
      match next_slot pos (dk_entries d) with
      | None => Ok d
      | Some (i, attr) =>
        match len with
        | O => Raise RuntimeError_keys_changed
        | S len' =>
          match attr_map !! attr with
          | Some canonical =>
            '(v, d1) ← dict_pop attr d;
            rename_loop len' u (S i) attr_map (dict_setitem canonical v d1)
          | None => rename_loop len' u (S i) attr_map d
          end
        end
      end
    else Raise RuntimeError_changed_size.
Proof. by destruct len. Qed.

Lemma rename_loop_used len u pos attr_map d d' :
  rename_loop len u pos attr_map d = Ok d' → u = ma_used d.
Proof. rewrite rename_loop_unfold. by case_bool_decide. Qed.

Lemma rename_loop_keeps attr_map u len : ∀ pos d d',
  rename_loop len u pos attr_map d = Ok d' →
  (dict_items d').*2 ≡ₚ (dict_items d).*2 ∧
  (NoDup (dict_keys d) → NoDup (dict_keys d')).
Proof.
  induction len as [|len IH]; intros pos d d'; rewrite rename_loop_unfold;
    case_bool_decide as Hu; try done;
    destruct (next_slot pos (dk_entries d)) as [[i attr]|]; try done;
    try (by intros [= <-]).
  destruct (attr_map !! attr) as [c|]; [|apply IH].
  destruct (dict_pop attr d) as [[v d1]|] eqn:Hpop;
    rewrite ?res_bind_Ok_l, ?res_bind_Raise_l; [|done].
  intros Hrec. pose proof (rename_loop_used _ _ _ _ _ _ Hrec) as Hu2.
  destruct (IH _ _ _ Hrec) as [Hval Hnd].
  destruct (dict_pop_items _ _ _ _ Hpop) as (l1 & l2 & E & E1 & Hnin & _).
  assert (ma_used d = S (ma_used d1)) as Hcount.
  { unfold ma_used. rewrite E, E1, !length_app. simpl. lia. }
  destruct (decide (c ∈ dict_keys d1)) as [Hc|Hc].
  - exfalso. rewrite (ma_used_keys (dict_setitem _ _ _)) in Hu2.
    rewrite dict_keys_setitem_present, <-ma_used_keys in Hu2 by done. lia.
  - rewrite dict_items_setitem_fresh in Hval by done.
    unfold dict_keys in Hnd. rewrite dict_items_setitem_fresh in Hnd by done.
    unfold dict_keys in *. rewrite E1 in *. rewrite E. split.
    + rewrite Hval, !fmap_app, !fmap_cons, fmap_nil. simpl.
      rewrite <-(assoc_L (++)). f_equiv. symmetry.
      apply Permutation_cons_append.
    + intros Hd. apply Hnd. rewrite fmap_app, fmap_cons in Hd.
      rewrite <-Permutation_middle in Hd. apply NoDup_cons in Hd as [_ Hd].
      rewrite <-fmap_app in Hd. rewrite (fmap_app _ (l1 ++ l2)).
      apply NoDup_app. split_and!; [done| |apply NoDup_singleton].
      intros x Hx Hx'. apply list_elem_of_singleton in Hx'. by subst.
Qed.

End RenameKeeps.

Section RenameRaises.
Context {V : Type}.
Implicit Types (es : list (option (pystr * V))) (d : pydict V)
  (attr_map : gmap pystr pystr).

Lemma next_slot_at es k (v : V) rest :
  next_slot (length es) (es ++ Some (k, v) :: rest) = Some (length es, k).
Proof.
  induction es as [|e es IH]; [done|]. cbn [length app next_slot].
  by rewrite IH.
Qed.

(** The loop steps over items it has nothing to rename. *)
Lemma rename_loop_skip attr_map d (b : list (pystr * V)) :
  ∀ a rest len,
    dk_entries d = a ++ (Some <$> b) ++ rest →
    Forall (λ k, attr_map !! k = None) b.*1 →
    rename_loop (length b + len) (ma_used d) (length a) attr_map d
    = rename_loop len (ma_used d) (length a + length b) attr_map d.
Proof.
  induction b as [|[k v] b IH]; intros a rest len Hd Hb.
  - simpl. by rewrite Nat.add_0_r.
  - rewrite fmap_cons in Hb. apply Forall_cons in Hb as [Hk Hb].
    cbn [length Nat.add]. rewrite rename_loop_unfold.
    rewrite bool_decide_eq_true_2 by done.
    rewrite Hd, fmap_cons, <-app_comm_cons, next_slot_at.
    simpl in Hk. rewrite Hk.
    replace (S (length a)) with (length (a ++ [Some (k, v)]))
      by (rewrite length_app; simpl; lia).
    rewrite (IH (a ++ [Some (k, v)]) rest len).
    + rewrite length_app. simpl. f_equal. lia.
    + rewrite Hd, fmap_cons, <-(assoc_L (++)). done.
    + done.
Qed.

Lemma clear_slot_at k (v : V) (l : list (pystr * V)) rest :
  k ∉ l.*1 →
  clear_slot k ((Some <$> l) ++ Some (k, v) :: rest) = (Some <$> l) ++ None :: rest.
Proof.
  induction l as [|[k' v'] l IH]; intros Hk.
  - simpl. by rewrite bool_decide_eq_true_2.
  - rewrite fmap_cons in Hk. apply not_elem_of_cons in Hk as [Hne Hk].
    simpl in *. rewrite bool_decide_eq_false_2 by done.
    f_equal. by apply IH.
Qed.

Lemma assoc_at k (v : V) (l1 l2 : list (pystr * V)) :
  k ∉ l1.*1 → assoc k (l1 ++ (k, v) :: l2) = Some v.
Proof.
  induction l1 as [|[k' v'] l1 IH]; intros Hk; simpl.
  - by rewrite decide_True.
  - rewrite fmap_cons in Hk. apply not_elem_of_cons in Hk as [Hne Hk].
    simpl in *. rewrite decide_False by done. by apply IH.
Qed.

(** An entry without deleted slots and with room for one more item, in
    which exactly one key has a canonical name to take: the renamed key is
    appended behind the position of the iterator, which finds it after its
    last expected key and raises. *)
Lemma rename_single_raises attr_map (l1 l2 : list (pystr * V)) k v c u :
  attr_map !! k = Some c →
  attr_map !! c = None →
  Forall (λ k', attr_map !! k' = None) (l1 ++ l2).*1 →
  c ∉ (l1 ++ (k, v) :: l2).*1 →
  canonicalize_attrs (PyDict (Some <$> (l1 ++ (k, v) :: l2)) (S u)) attr_map
  = Raise RuntimeError_keys_changed.
Proof.
  intros Hk Hc Hrest Hfresh.
  rewrite fmap_app in Hrest. apply Forall_app in Hrest as [H1 H2].
  assert (k ∉ l1.*1) as Hk1.
  { intros Hin. rewrite Forall_forall in H1. specialize (H1 k Hin). congruence. }
  unfold canonicalize_attrs.
  set (d0 := PyDict (Some <$> (l1 ++ (k, v) :: l2)) (S u)).
  assert (dict_items d0 = l1 ++ (k, v) :: l2) as Hitems0
    by (unfold dict_items; simpl; apply live_Some).
  assert (ma_used d0 = (length l1 + S (length l2))%nat) as Hused0.
  { unfold ma_used. rewrite Hitems0, length_app. done. }
  (* the keys before [k] *)
  assert (dk_entries d0 = [] ++ (Some <$> l1) ++ Some (k, v) :: (Some <$> l2))
    as Hd0 by (unfold d0; cbn [dk_entries]; by rewrite fmap_app, fmap_cons).
  change (rename_loop (ma_used d0) (ma_used d0)
            (length (@nil (option (pystr * V)))) attr_map d0 = Raise RuntimeError_keys_changed).
  rewrite Hused0 at 1.
  rewrite (rename_loop_skip attr_map d0 l1 [] _ (S (length l2)) Hd0 H1).
  cbn [length Nat.add].
  (* the turn of [k] *)
  rewrite rename_loop_unfold, bool_decide_eq_true_2 by done.
  rewrite Hd0. cbn [app]. rewrite <-(length_fmap Some l1), next_slot_at, Hk.
  assert (dict_pop k d0
          = Ok (v, PyDict ((Some <$> l1) ++ None :: (Some <$> l2)) (S u)))
    as ->.
  { unfold dict_pop, dict_get. rewrite Hitems0, assoc_at by done.
    rewrite Hd0. cbn [dk_usable app]. by rewrite clear_slot_at. }
  rewrite res_bind_Ok_l.
  set (d1 := PyDict ((Some <$> l1) ++ None :: (Some <$> l2)) (S u)).
  assert (dict_items d1 = l1 ++ l2) as Hitems1.
  { unfold dict_items, d1. cbn [dk_entries].
    by rewrite live_app, live_cons_None, !live_Some. }
  assert (c ∉ dict_keys d1) as Hc1.
  { unfold dict_keys. rewrite Hitems1. intros Hin. apply Hfresh.
    rewrite fmap_app in *. rewrite fmap_cons.
    apply elem_of_app in Hin as [?|?]; apply elem_of_app; [by left|].
    right. by right. }
  assert (dict_setitem c v d1
          = PyDict (((Some <$> l1) ++ [None]) ++ (Some <$> l2) ++ [Some (c, v)]) u)
    as ->.
  { unfold dict_setitem. apply dict_contains_false in Hc1. rewrite Hc1.
    unfold d1. cbn [dk_usable dk_entries pred].
    by rewrite <-!(assoc_L (++)). }
  set (d2 := PyDict _ u).
  assert (ma_used d2 = ma_used d0) as Hused2.
  { unfold ma_used, dict_items at 1, d2. cbn [dk_entries].
    rewrite !live_app, !live_Some, Hitems0, !length_app. simpl. lia. }
  rewrite <-Hused2.
  assert (dk_entries d2
          = ((Some <$> l1) ++ [None]) ++ (Some <$> l2) ++ [Some (c, v)])
    as Hd2 by done.
  replace (S (length (Some <$> l1)))
    with (length ((Some <$> l1) ++ [None : option (pystr * V)]))
    by (rewrite length_app; simpl; lia).
  replace (length l2) with (length l2 + 0)%nat at 1 by lia.
  rewrite (rename_loop_skip attr_map d2 l2 _ _ 0%nat Hd2 H2).
  rewrite rename_loop_unfold, bool_decide_eq_true_2 by done.
  rewrite Hd2, (assoc_L (++)).
  replace (length ((Some <$> l1) ++ [None]) + length l2)%nat
    with (length (((Some <$> l1) ++ [None : option (pystr * V)]) ++ (Some <$> l2)))
    by (rewrite !length_app, !length_fmap; done).
  by rewrite next_slot_at.
Qed.

End RenameRaises.

(** A dictionary filled item by item with up to five distinct keys has no
    deleted slot and five slots in all. *)
Lemma dict_of_items_small {V : Type} (l : list (pystr * V)) :
  NoDup l.*1 → (1 ≤ length l ≤ 5)%nat →
  dict_of_items l = PyDict (Some <$> l) (5 - length l).
Proof.
  induction l as [|[k v] l IH] using rev_ind; intros Hnd Hlen; [simpl in *; lia|].
  unfold dict_of_items in *. rewrite foldl_app. cbn [foldl fst snd].
  rewrite fmap_app in Hnd. apply NoDup_app in Hnd as (Hnd & Hk & _).
  rewrite length_app in *. cbn [length] in *.
  destruct l as [|x l]; [done|].
  rewrite IH by (done || simpl in *; lia).
  unfold dict_setitem.
  assert (dict_contains k (PyDict (Some <$> x :: l) (5 - length (x :: l))) = false)
    as ->.
  { apply dict_contains_false. unfold dict_keys, dict_items. cbn [dk_entries].
    rewrite live_Some. intros Hin. apply (Hk k Hin). by left. }
  cbn [dk_usable dk_entries].
  destruct (5 - length (x :: l))%nat as [|n] eqn:En; [simpl in *; lia|].
  cbn [dk_usable dk_entries pred]. rewrite fmap_app. f_equal. simpl in *. lia.
Qed.

Lemma MAP_ATTRS_canonical_not_variant k c :
  MAP_ATTRS !! k = Some c → MAP_ATTRS !! c = None.
Proof.
  intros H. apply elem_of_list_to_map_2 in H.
  repeat (apply elem_of_cons in H as [[= -> ->]|H]; [by vm_compute|]).
  by apply elem_of_nil in H.
Qed.

(** X1.  When [canonicalize_attrs] returns, the entry holds the same values
    as before, each as often as before, under as many keys; keys that were
    distinct are distinct. *)
Theorem canonicalize_attrs_keeps_values {V : Type} (entry entry' : pydict V)
    (attr_map : gmap pystr pystr) :
  canonicalize_attrs entry attr_map = Ok entry' →
  (dict_items entry').*2 ≡ₚ (dict_items entry).*2 ∧
  ma_used entry' = ma_used entry ∧
  (NoDup (dict_keys entry) → NoDup (dict_keys entry')).
Proof.
  intros H. destruct (rename_loop_keeps _ _ _ _ _ _ H) as [Hval Hnd].
  split_and!; [done| |done].
  unfold ma_used. rewrite <-(length_fmap snd), Hval. by rewrite length_fmap.
Qed.

Lemma canonicalize_attrs_keeps_values_witness :
  canonicalize_attrs ad_entry MAP_ATTRS = Ok ad_entry_renamed ∧
  (dict_items ad_entry_renamed).*2 ≡ₚ (dict_items ad_entry).*2 ∧
  ma_used ad_entry_renamed = ma_used ad_entry ∧
  (NoDup (dict_keys ad_entry) → NoDup (dict_keys ad_entry_renamed)).
Proof.
  assert (canonicalize_attrs ad_entry MAP_ATTRS = Ok ad_entry_renamed) as H
    by (vm_compute; reflexivity).
  split; [exact H|].
  exact (canonicalize_attrs_keeps_values ad_entry ad_entry_renamed MAP_ATTRS H).
Defined.

(** X2.  An entry received with at most four attributes of distinct names,
    exactly one of which has a name that [MAP_ATTRS] renames to a name the
    entry does not have: [canonicalize_attrs] raises [RuntimeError]. *)
Theorem canonicalize_attrs_one_variant_raises
    (l1 l2 : list (pystr * list pybytes)) (k c : pystr) (v : list pybytes) :
  MAP_ATTRS !! k = Some c →
  Forall (λ k', MAP_ATTRS !! k' = None) (l1 ++ l2).*1 →
  NoDup (l1 ++ (k, v) :: l2).*1 →
  c ∉ (l1 ++ (k, v) :: l2).*1 →
  (length (l1 ++ l2) ≤ 3)%nat →
  canonicalize_attrs (dict_of_items (l1 ++ (k, v) :: l2)) MAP_ATTRS
  = Raise RuntimeError_keys_changed.
Proof.
  intros Hk Hrest Hnd Hc Hlen. rewrite length_app in Hlen.
  rewrite dict_of_items_small by (done || rewrite length_app; simpl; lia).
  rewrite length_app. cbn [length].
  replace (5 - (length l1 + S (length l2)))%nat
    with (S (3 - (length l1 + length l2))) by lia.
  apply (rename_single_raises MAP_ATTRS l1 l2 k v c); try done.
  by apply MAP_ATTRS_canonical_not_variant in Hk.
Qed.

Lemma canonicalize_attrs_one_variant_raises_witness :
  MAP_ATTRS !! py "department" = Some (py "departmentNumber") ∧
  canonicalize_attrs
    (dict_of_items
       ([(py "displayName", [bytes_of "Ann"]); (py "title", [bytes_of "Dev"])]
        ++ (py "department", [bytes_of "Eng"]) :: [])) MAP_ATTRS
  = Raise RuntimeError_keys_changed.
Proof.
  split; [by vm_compute|].
  apply (canonicalize_attrs_one_variant_raises
           [(py "displayName", [bytes_of "Ann"]); (py "title", [bytes_of "Dev"])]
           [] (py "department") (py "departmentNumber") [bytes_of "Eng"]).
  - by vm_compute.
  - apply (bool_decide_unpack _). by vm_compute.
  - apply (bool_decide_unpack _). by vm_compute.
  - apply (bool_decide_unpack _). by vm_compute.
  - simpl. lia.
Defined.

(** ** Which exceptions can come out *)

Lemma utf8_decode_N_raises : ∀ n bs e,
  (length bs ≤ n)%nat → utf8_decode_N bs = Raise e → e = UnicodeDecodeError.
Proof.
  induction n as [|n IH]; intros bs e Hlen.
  - destruct bs; [done|simpl in Hlen; lia].
  - destruct bs as [|b0 r0]; [done|]. cbn [utf8_decode_N].
    assert (∀ r (f : pystr → res pystr),
              (length r ≤ n)%nat → (∀ s, f s ≠ Raise e) →
              utf8_decode_N r ≫= f = Raise e → e = UnicodeDecodeError) as Hstep.
    { intros r f Hr Hf. destruct (utf8_decode_N r) as [s|e'] eqn:E.
      - rewrite res_bind_Ok_l. intros H. by destruct (Hf s).
      - rewrite res_bind_Raise_l. intros [= ->]. by apply (IH r). }
    simpl in Hlen.
    repeat (case_match; try (intros [= <-]; done);
            try (apply Hstep; [simpl in *; lia|done])).
Qed.

Lemma attr_s_raises entry a e :
  attr_s entry a = Raise e → e = UnicodeDecodeError.
Proof.
  rewrite attr_s_first_value. destruct (first_value entry a); [|done].
  unfold utf8_decode. by apply (utf8_decode_N_raises _ _ _ (le_n _)).
Qed.

Lemma rename_loop_raises {V : Type} (attr_map : gmap pystr pystr) u len :
  ∀ pos (d : pydict V) e,
    rename_loop len u pos attr_map d = Raise e →
    e = RuntimeError_changed_size ∨ e = RuntimeError_keys_changed.
Proof.
  induction len as [|len IH]; intros pos d e; rewrite rename_loop_unfold;
    case_bool_decide; try (intros [= <-]; by left);
    destruct (next_slot pos (dk_entries d)) as [[i attr]|] eqn:E; try done;
    try (intros [= <-]; by right).
  destruct (attr_map !! attr); [|apply IH].
  destruct (next_slot_dict_get _ _ _ _ E) as [v Hv].
  unfold dict_pop, dict_get, dict_items. rewrite Hv, res_bind_Ok_l. apply IH.
Qed.

Lemma normalize_raises entry e :
  normalize entry = Raise e →
  e = UnicodeDecodeError ∨ e = RuntimeError_changed_size
  ∨ e = RuntimeError_keys_changed.
Proof.
  unfold normalize.
  destruct (canonicalize_attrs entry MAP_ATTRS) as [en|e'] eqn:Hc.
  - rewrite res_bind_Ok_l.
    repeat (match goal with
            | |- context [attr_s en ?a] =>
              let E := fresh in
              destruct (attr_s en a) eqn:E;
              [rewrite res_bind_Ok_l
              |rewrite res_bind_Raise_l; intros [= <-]; left;
               by eapply attr_s_raises]
            end).
    done.
  - rewrite res_bind_Raise_l. intros [= <-]. right.
    by apply rename_loop_raises in Hc.
Qed.

(** X3.  [result_to_org] raises nothing but [UnicodeDecodeError], from a
    value that is not UTF-8, and [RuntimeError], from the renaming: a
    missing attribute or an empty value list is never a [KeyError] or an
    [IndexError]. *)
Theorem result_to_org_raises_only (result0 : result_t)
    (preprocess : option (result_t → result_t)) (e : exn) :
  result_to_org result0 preprocess = Raise e →
  e = UnicodeDecodeError ∨ e = RuntimeError_changed_size
  ∨ e = RuntimeError_keys_changed.
Proof.
  unfold result_to_org. rewrite for_result_records_eq.
  generalize (match preprocess with Some f => f result0 | None => result0 end).
  intros result.
  destruct (records_of result) as [recs|e'] eqn:E;
    rewrite ?res_bind_Ok_l, ?res_bind_Raise_l; [done|].
  intros [= <-]. clear -E. revert E.
  induction result as [|[[dn|] entry] rest IH]; cbn [records_of]; [done| |done].
  destruct (normalize entry) eqn:En;
    rewrite ?res_bind_Ok_l, ?res_bind_Raise_l.
  - destruct (records_of rest); rewrite ?res_bind_Ok_l, ?res_bind_Raise_l;
      [done|]. intros [= <-]. by apply IH.
  - intros [= <-]. by apply normalize_raises in En.
Qed.

Lemma result_to_org_raises_only_witness :
  result_to_org [(Some (py "cn=a"), bad_title)] None = Raise UnicodeDecodeError ∧
  (UnicodeDecodeError = UnicodeDecodeError
   ∨ UnicodeDecodeError = RuntimeError_changed_size
   ∨ UnicodeDecodeError = RuntimeError_keys_changed).
Proof.
  assert (result_to_org [(Some (py "cn=a"), bad_title)] None
          = Raise UnicodeDecodeError) as H by (vm_compute; reflexivity).
  split; [exact H|].
  exact (result_to_org_raises_only _ None UnicodeDecodeError H).
Defined.

(** ** [result_to_org]: more about the loop *)

Lemma plain_entry_normalize entry :
  plain_entry entry = true → ∃ r, normalize entry = Ok r.
Proof.
  unfold plain_entry. intros [Hkeys Hdec]%andb_prop.
  assert (canonicalize_attrs entry MAP_ATTRS = Ok entry) as Hren.
  { apply canonicalize_attrs_noop. intros k Hk.
    destruct (MAP_ATTRS !! k) as [c|] eqn:E; [|done]. exfalso.
    apply MAP_ATTRS_lookup_Some in E.
    rewrite forallb_forall in Hkeys. apply list_elem_of_In, Hkeys in E.
    apply negb_true_iff in E. apply dict_contains_false in E. done. }
  cbn [read_attrs fmap list_fmap fst forallb] in Hdec.
  repeat (apply andb_prop in Hdec as [? Hdec]).
  destruct (attr_s_decodable entry (py "displayName")) as (n & Hn & _); [done|].
  destruct (attr_s_decodable entry (py "title")) as (t & Ht & _); [done|].
  destruct (attr_s_decodable entry (py "manager")) as (m & Hm & _); [done|].
  destruct (attr_s_decodable entry (py "departmentNumber"))
    as (d & Hd & _); [done|].
  exists (Rec n t m d). unfold normalize.
  by rewrite Hren, res_bind_Ok_l, Hn, res_bind_Ok_l, Ht, res_bind_Ok_l, Hm,
    res_bind_Ok_l, Hd.
Qed.

(** X4.  On a result whose entries have canonical attribute names and
    UTF-8 first values, [result_to_org] returns: missing attributes, empty
    value lists, repeated identifiers, unknown or own managers do not make
    it raise. *)
Theorem result_to_org_total (result : result_t) :
  forallb plain_result result = true →
  ∃ org, result_to_org result None = Ok org.
Proof.
  intros H. unfold result_to_org. generalize empty_org.
  induction result as [|[[dn|] entry] rest IH]; intros org;
    cbn [for_result forallb] in *.
  - by exists org.
  - apply andb_prop in H as [He Hrest]. rewrite loop_body_normalize.
    destruct (plain_entry_normalize entry He) as [r ->].
    rewrite !res_bind_Ok_l. by apply IH.
  - apply andb_prop in H as [_ Hrest]. cbn [loop_body].
    rewrite res_bind_Ok_l. by apply IH.
Qed.

Lemma result_to_org_total_witness :
  forallb plain_result ann_twice = true ∧
  ∃ org, result_to_org ann_twice None = Ok org.
Proof.
  assert (forallb plain_result ann_twice = true) as H
    by (vm_compute; reflexivity).
  split; [exact H|]. exact (result_to_org_total ann_twice H).
Defined.

(** X5.  A result without a DN is skipped unread: the tables, or the
    exception, are those of the results that have one. *)
Theorem result_to_org_skips_no_dn (result : result_t) :
  result_to_org result None
  = result_to_org (filter (λ p, is_Some p.1) result) None.
Proof.
  unfold result_to_org. generalize empty_org.
  induction result as [|[[dn|] entry] rest IH]; intros org; [done| |].
  - rewrite filter_cons_True by (by eexists). cbn [for_result].
    destruct (loop_body org (Some dn) entry);
      rewrite ?res_bind_Ok_l, ?res_bind_Raise_l; [apply IH|done].
  - rewrite filter_cons_False by (by intros [? ?]). cbn [for_result loop_body].
    rewrite res_bind_Ok_l. apply IH.
Qed.

(** ** The tables: managers, departments, identifiers *)

Lemma result_to_org_Ok_inv result org :
  result_to_org result None = Ok org →
  ∃ recs, records_of result = Ok recs ∧ org = build_from empty_org recs.
Proof.
  unfold result_to_org. rewrite for_result_records_eq.
  destruct (records_of result) as [recs|];
    rewrite ?res_bind_Ok_l, ?res_bind_Raise_l; [|done].
  intros [= <-]. by exists recs.
Qed.

Lemma records_of_ids result recs :
  records_of result = Ok recs → recs.*1 = result_ids result.
Proof.
  revert recs. unfold result_ids.
  induction result as [|[[dn|] entry] rest IH]; intros recs;
    cbn [records_of].
  - by intros [= <-].
  - destruct (normalize entry); rewrite ?res_bind_Ok_l, ?res_bind_Raise_l; [|done].
    destruct (records_of rest) as [rs|];
      rewrite ?res_bind_Ok_l, ?res_bind_Raise_l; [|done].
    intros [= <-]. rewrite fmap_cons. csimpl. f_equal. by apply IH.
  - intros H. csimpl. by apply IH.
Qed.

Lemma last_field_snoc f id recs dn r :
  last_field f id (recs ++ [(dn, r)])
  = if decide (dn = id ∧ f r ≠ []) then Some (f r) else last_field f id recs.
Proof.
  unfold last_field. rewrite filter_app.
  destruct (decide (dn = id ∧ f r ≠ [])) as [H|H].
  - rewrite filter_cons_True, filter_nil by done. by rewrite last_snoc.
  - rewrite filter_cons_False, filter_nil by done. by rewrite app_nil_r.
Qed.

Lemma build_from_fields recs :
  let org := build_from empty_org recs in
  (∀ id, mgr_of org !! id = last_field rec_manager id recs) ∧
  (∀ id, dept_of org !! id = last_field rec_department id recs).
Proof.
  induction recs as [|[dn r] recs IH] using rev_ind; cbn zeta.
  - split; intros id; apply lookup_empty.
  - rewrite build_from_snoc. destruct IH as [Hm Hd].
    split; intros id; rewrite last_field_snoc; cbn [add_record mgr_of dept_of].
    + destruct (truthy (rec_manager r)) eqn:Ht.
      * apply truthy_nonempty in Ht. rewrite lookup_insert.
        destruct (decide (dn = id)) as [->|Hne].
        -- by rewrite decide_True.
        -- rewrite decide_False by tauto. apply Hm.
      * rewrite decide_False; [apply Hm|].
        intros [_ Hne]. apply truthy_nonempty in Hne. congruence.
    + destruct (truthy (rec_department r)) eqn:Ht.
      * apply truthy_nonempty in Ht. rewrite lookup_insert.
        destruct (decide (dn = id)) as [->|Hne].
        -- by rewrite decide_True.
        -- rewrite decide_False by tauto. apply Hd.
      * rewrite decide_False; [apply Hd|].
        intros [_ Hne]. apply truthy_nonempty in Hne. congruence.
Qed.

Lemma last_field_Some f id recs m :
  last_field f id recs = Some m → ∃ r, (id, r) ∈ recs ∧ f r = m ∧ m ≠ [].
Proof.
  unfold last_field.
  destruct (last (filter _ recs)) as [[id' r]|] eqn:E; [|done].
  intros [= <-]. apply last_Some_elem_of in E.
  apply list_elem_of_filter in E as [[Hid Hne] Hin]. simpl in *. subst id'.
  by exists r.
Qed.

Lemma grouped_listed f recs table id m :
  grouped f recs table → last_field f id recs = Some m →
  ∃ group, (m, group) ∈ table ∧ id ∈ group.
Proof.
  intros [_ Hget] (r & Hin & Hf & Hne)%last_field_Some.
  exists (members f m recs).
  assert (id ∈ members f m recs) as Hmem
    by (apply elem_of_members; by exists r).
  split; [|done]. apply assoc_Some_elem_of. rewrite Hget.
  by apply (group_of_members _ _ _ id).
Qed.

(** X7.  The manager recorded for an identifier lists the identifier among
    its reports, and the department recorded for an identifier lists it
    among its members. *)
Theorem recorded_manager_lists_report (result : result_t) (org : org_t) :
  result_to_org result None = Ok org →
  (∀ id m, mgr_of org !! id = Some m →
     m ≠ [] ∧ ∃ group, (m, group) ∈ reports_to org ∧ id ∈ group) ∧
  (∀ id d, dept_of org !! id = Some d →
     d ≠ [] ∧ ∃ cluster, (d, cluster) ∈ depts org ∧ id ∈ cluster).
Proof.
  intros (recs & _ & ->)%result_to_org_Ok_inv.
  destruct (build_from_tables recs) as (Hgm & Hgd & _).
  destruct (build_from_fields recs) as [Hm Hd].
  split; intros id m Hl.
  - rewrite Hm in Hl. split; [by apply last_field_Some in Hl as (? & ? & ? & ?)|].
    by apply (grouped_listed rec_manager recs).
  - rewrite Hd in Hl. split; [by apply last_field_Some in Hl as (? & ? & ? & ?)|].
    by apply (grouped_listed rec_department recs).
Qed.

Lemma recorded_manager_lists_report_witness :
  result_to_org alice_bob None = Ok (build_from empty_org alice_bob_records) ∧
  (∀ id m, mgr_of (build_from empty_org alice_bob_records) !! id = Some m →
     m ≠ [] ∧ ∃ group,
       (m, group) ∈ reports_to (build_from empty_org alice_bob_records)
       ∧ id ∈ group) ∧
  (∀ id d, dept_of (build_from empty_org alice_bob_records) !! id = Some d →
     d ≠ [] ∧ ∃ cluster,
       (d, cluster) ∈ depts (build_from empty_org alice_bob_records)
       ∧ id ∈ cluster).
Proof.
  assert (result_to_org alice_bob None
          = Ok (build_from empty_org alice_bob_records)) as H
    by (vm_compute; reflexivity).
  split; [exact H|]. exact (recorded_manager_lists_report alice_bob _ H).
Defined.

Lemma last_record_is_Some id recs :
  is_Some (last_record id recs) ↔ id ∈ recs.*1.
Proof.
  unfold last_record. rewrite fmap_is_Some, last_is_Some. split.
  - intros Hne. destruct (filter _ recs) as [|[id' r] l] eqn:E; [done|].
    assert ((id', r) ∈ filter (λ p, p.1 = id) recs) as Hin
      by (rewrite E; by left).
    apply list_elem_of_filter in Hin as [Hid Hin]. simpl in Hid. subst id'.
    by apply (list_elem_of_fmap_2 fst) in Hin.
  - intros ([id' r] & Heq & Hin)%list_elem_of_fmap Hnil.
    simpl in Heq. subst id.
    assert ((id', r) ∈ filter (λ p, p.1 = id') recs) as Hf
      by (by apply list_elem_of_filter).
    rewrite Hnil in Hf. by apply elem_of_nil in Hf.
Qed.

(** X8.  The display-name table and the title table have the identifiers
    of the input as their keys, no more and no fewer; every report of a
    manager and every member of a department is among them, so that only a
    manager can be an identifier the tables do not know. *)
Theorem tables_know_the_input (result : result_t) (org : org_t) :
  result_to_org result None = Ok org →
  (∀ id, is_Some (display_name org !! id) ↔ id ∈ result_ids result) ∧
  (∀ id, is_Some (title_of org !! id) ↔ id ∈ result_ids result) ∧
  (∀ k group id,
     (k, group) ∈ reports_to org ∨ (k, group) ∈ depts org →
     id ∈ group → id ∈ result_ids result).
Proof.
  intros (recs & Hrecs & ->)%result_to_org_Ok_inv.
  destruct (build_from_tables recs) as (Hgm & Hgd & Hn & Ht).
  rewrite <-(records_of_ids _ _ Hrecs).
  split_and!.
  - intros id. by rewrite Hn, fmap_is_Some, last_record_is_Some.
  - intros id. by rewrite Ht, fmap_is_Some, last_record_is_Some.
  - intros k group id [Hin|Hin] Hid.
    + destruct (grouped_elem_of _ _ _ _ _ Hgm Hin) as [_ ->].
      apply elem_of_members in Hid as (r & Hr & _).
      by apply (list_elem_of_fmap_2 fst) in Hr.
    + destruct (grouped_elem_of _ _ _ _ _ Hgd Hin) as [_ ->].
      apply elem_of_members in Hid as (r & Hr & _).
      by apply (list_elem_of_fmap_2 fst) in Hr.
Qed.

Lemma tables_know_the_input_witness :
  result_to_org ann_twice None = Ok (build_from empty_org ann_twice_records) ∧
  (∀ id, is_Some (display_name (build_from empty_org ann_twice_records) !! id)
         ↔ id ∈ result_ids ann_twice) ∧
  (∀ id, is_Some (title_of (build_from empty_org ann_twice_records) !! id)
         ↔ id ∈ result_ids ann_twice) ∧
  (∀ k group id,
     (k, group) ∈ reports_to (build_from empty_org ann_twice_records)
     ∨ (k, group) ∈ depts (build_from empty_org ann_twice_records) →
     id ∈ group → id ∈ result_ids ann_twice).
Proof.
  assert (result_to_org ann_twice None
          = Ok (build_from empty_org ann_twice_records)) as H
    by (vm_compute; reflexivity).
  split; [exact H|]. exact (tables_know_the_input ann_twice _ H).
Defined.

(** X9.  No group is empty and no group has the empty string as its key;
    the keys of each table are distinct: the template draws every manager
    and every department once, with at least one node. *)
Theorem groups_well_formed (result : result_t) (org : org_t) :
  result_to_org result None = Ok org →
  NoDup (reports_to org).*1 ∧ NoDup (depts org).*1 ∧
  (∀ k group, (k, group) ∈ reports_to org ∨ (k, group) ∈ depts org →
     k ≠ [] ∧ group ≠ []).
Proof.
  intros (recs & _ & ->)%result_to_org_Ok_inv.
  destruct (build_from_tables recs) as (Hgm & Hgd & _).
  split_and!.
  - destruct Hgm as [-> _]. apply NoDup_first_seen.
  - destruct Hgd as [-> _]. apply NoDup_first_seen.
  - assert (∀ f table k group, grouped f recs table → (k, group) ∈ table →
              k ≠ [] ∧ group ≠ []) as Hshape.
    { intros f table k group Hg Hin.
      pose proof (elem_of_assoc_NoDup k group table) as Ha.
      destruct Hg as [Hkeys Hget].
      rewrite Hkeys in Ha. specialize (Ha (NoDup_first_seen _) Hin).
      rewrite Hget in Ha. unfold group_of in Ha.
      destruct (truthy k) eqn:Hk; [|done]. apply truthy_nonempty in Hk.
      split; [done|]. destruct (members f k recs); [done|].
      by injection Ha as <-. }
    intros k group [Hin|Hin].
    + exact (Hshape rec_manager _ _ _ Hgm Hin).
    + exact (Hshape rec_department _ _ _ Hgd Hin).
Qed.

Lemma groups_well_formed_witness :
  result_to_org alice_bob None = Ok (build_from empty_org alice_bob_records) ∧
  NoDup (reports_to (build_from empty_org alice_bob_records)).*1 ∧
  NoDup (depts (build_from empty_org alice_bob_records)).*1 ∧
  (∀ k group,
     (k, group) ∈ reports_to (build_from empty_org alice_bob_records)
     ∨ (k, group) ∈ depts (build_from empty_org alice_bob_records) →
     k ≠ [] ∧ group ≠ []).
Proof.
  assert (result_to_org alice_bob None
          = Ok (build_from empty_org alice_bob_records)) as H
    by (vm_compute; reflexivity).
  split; [exact H|]. exact (groups_well_formed alice_bob _ H).
Defined.

(** X17.  [mgr_of] and [dept_of] hold, for every identifier, the manager
    and the department of its last record in which the field is not
    empty: a later record of the same identifier with an empty field
    leaves the earlier value in place, and an identifier whose records
    all have the field empty is not a key. *)
Theorem recorded_manager_is_last_given (result : result_t) (org : org_t) :
  result_to_org result None = Ok org →
  ∃ recs, records_of result = Ok recs ∧
    (∀ id, mgr_of org !! id = last_field rec_manager id recs) ∧
    (∀ id, dept_of org !! id = last_field rec_department id recs).
Proof.
  intros (recs & Hrecs & ->)%result_to_org_Ok_inv.
  exists recs. split; [done|]. apply build_from_fields.
Qed.

Lemma recorded_manager_is_last_given_witness :
  result_to_org ann_twice None = Ok (build_from empty_org ann_twice_records) ∧
  ∃ recs, records_of ann_twice = Ok recs ∧
    (∀ id, mgr_of (build_from empty_org ann_twice_records) !! id
           = last_field rec_manager id recs) ∧
    (∀ id, dept_of (build_from empty_org ann_twice_records) !! id
           = last_field rec_department id recs).
Proof.
  assert (result_to_org ann_twice None
          = Ok (build_from empty_org ann_twice_records)) as H
    by (vm_compute; reflexivity).
  split; [exact H|]. exact (recorded_manager_is_last_given ann_twice _ H).
Defined.

(** A second record without a manager: the first manager stays. *)
Example manager_not_erased :
  ∃ org,
    result_to_org
      [ (Some (py "cn=a"), entry_of [("manager", ["cn=m"])]%string);
        (Some (py "cn=a"), entry_of [("title", ["Dev"])]%string) ] None
    = Ok org ∧
    mgr_of org !! py "cn=a" = Some (py "cn=m") ∧
    title_of org !! py "cn=a" = Some (py "Dev").
Proof. eexists. split_and!; by vm_compute. Qed.

(** ** The Renderer: labels and the whole document *)

Lemma res_mapM_Ok {A B} (f : A → res B) (l : list A) :
  (∀ x, x ∈ l → ∃ y, f x = Ok y) → ∃ ys, res_mapM f l = Ok ys.
Proof.
  induction l as [|a l IH]; intros H; [by exists []|]. cbn [res_mapM].
  destruct (H a) as [b ->]; [by left|]. rewrite res_bind_Ok_l.
  destruct IH as [bs ->]; [intros x Hx; apply H; by right|].
  rewrite res_bind_Ok_l. by eexists.
Qed.

Lemma res_mapM_Raise {A B} (f : A → res B) (l : list A) e :
  res_mapM f l = Raise e → ∃ x, x ∈ l ∧ f x = Raise e.
Proof.
  induction l as [|a l IH]; [done|]. cbn [res_mapM].
  destruct (f a) as [b|e'] eqn:Ea; rewrite ?res_bind_Ok_l, ?res_bind_Raise_l.
  - destruct (res_mapM f l) as [bs|e'];
      rewrite ?res_bind_Ok_l, ?res_bind_Raise_l; [done|].
    intros [= ->]. destruct IH as (x & Hx & Hfx); [done|].
    exists x. split; [by right|done].
  - intros [= ->]. exists a. split; [by left|done].
Qed.

Section RenderFacts.
Variable explode_dn : pystr → bool → res (list pystr).
Variable is_word : N → bool.
Variable str_lower : pystr → pystr.

Lemma label_outcome org id :
  label explode_dn org id
  = ident ← dn_to_ident explode_dn id;
    Ok (default ident (display_name org !! id) ++ nl
        ++ title_s id (title_of org)).
Proof.
  unfold label, name_and_title, name_s.
  by destruct (dn_to_ident explode_dn id).
Qed.

Lemma label_parses org id :
  parses explode_dn id = true → ∃ l, label explode_dn org id = Ok l.
Proof.
  unfold parses. rewrite label_outcome.
  destruct (dn_to_ident explode_dn id); [|done]. by eexists.
Qed.

Lemma label_Raise org id e :
  label explode_dn org id = Raise e → dn_to_ident explode_dn id = Raise e.
Proof. rewrite label_outcome. by destruct (dn_to_ident explode_dn id). Qed.

Lemma assoc_key_is_Some {V} k (table : list (pystr * V)) :
  k ∈ table.*1 → ∃ v, assoc k table = Some v ∧ (k, v) ∈ table.
Proof.
  intros Hk. destruct (assoc k table) as [v|] eqn:E.
  - exists v. split; [done|]. by apply assoc_Some_elem_of.
  - by apply assoc_None_not_elem_of in E.
Qed.

Lemma elem_of_groups (table : odict) k group id :
  (k, group) ∈ table → id ∈ group → id ∈ concat table.*2.
Proof.
  intros Hin Hid. apply list_elem_of_In, in_concat. exists group.
  split; apply list_elem_of_In; [|done].
  by apply (list_elem_of_fmap_2 snd) in Hin.
Qed.

(** X10.  When [explode_dn] accepts every identifier in the tables, the
    template is rendered to its end: the document is the head of the
    graph, the clusters and the edge groups, and the closing brace. *)
Theorem render_total (org : org_t) :
  forallb (parses explode_dn) (rendered_ids org) = true →
  ∃ body, render explode_dn is_word str_lower org
          = Ok (template_head ++ body ++ template_foot).
Proof.
  intros H. rewrite forallb_forall in H.
  assert (∀ id, id ∈ rendered_ids org → parses explode_dn id = true) as Hp
    by (intros id Hid; by apply H, list_elem_of_In).
  clear H. unfold rendered_ids in Hp. unfold render.
  destruct (res_mapM_Ok (render_cluster explode_dn is_word str_lower org)
              (depts org).*1) as [clusters ->].
  { intros dept (dns & Hget & Hin)%assoc_key_is_Some.
    unfold render_cluster. rewrite Hget. cbn [from_option].
    rewrite res_bind_Ok_l.
    destruct (res_mapM_Ok (render_member explode_dn org) dns) as [nodes ->];
      [|rewrite res_bind_Ok_l; by eexists].
    intros dn Hdn. unfold render_member.
    destruct (label_parses org dn) as [l ->]; [|rewrite res_bind_Ok_l; by eexists].
    apply Hp, elem_of_app. left. by apply (elem_of_groups _ dept dns). }
  rewrite res_bind_Ok_l.
  destruct (res_mapM_Ok (render_edges explode_dn org) (reports_to org).*1)
    as [edges ->].
  { intros mgr Hmgr. destruct (assoc_key_is_Some _ _ Hmgr) as (dns & Hget & Hin).
    unfold render_edges.
    destruct (label_parses org mgr) as [l ->].
    { apply Hp, elem_of_app. right. apply elem_of_app. by left. }
    rewrite res_bind_Ok_l, Hget. cbn [from_option]. rewrite res_bind_Ok_l.
    destruct (res_mapM_Ok (render_report explode_dn org) dns) as [ts ->];
      [|rewrite res_bind_Ok_l; by eexists].
    intros dn Hdn. unfold render_report.
    destruct (label_parses org dn) as [l' ->]; [|rewrite res_bind_Ok_l; by eexists].
    apply Hp, elem_of_app. right. apply elem_of_app. right.
    by apply (elem_of_groups _ mgr dns). }
  rewrite res_bind_Ok_l. exists (concat clusters ++ concat edges).
  by rewrite <-!(assoc_L (++)).
Qed.

(** X11.  The renderer raises only what [dn_to_ident] raises on one of
    the identifiers it draws: no lookup in the tables can fail. *)
Theorem render_raises_only (org : org_t) (e : exn) :
  render explode_dn is_word str_lower org = Raise e →
  ∃ id, id ∈ rendered_ids org ∧ dn_to_ident explode_dn id = Raise e.
Proof.
  unfold render, rendered_ids.
  destruct (res_mapM (render_cluster explode_dn is_word str_lower org)
              (depts org).*1) as [clusters|e'] eqn:Ec;
    rewrite ?res_bind_Ok_l, ?res_bind_Raise_l.
  - destruct (res_mapM (render_edges explode_dn org) (reports_to org).*1)
      as [edges|e'] eqn:Ee; rewrite ?res_bind_Ok_l, ?res_bind_Raise_l; [done|].
    intros [= ->]. apply res_mapM_Raise in Ee as (mgr & Hmgr & Hr).
    destruct (assoc_key_is_Some _ _ Hmgr) as (dns & Hget & Hin).
    unfold render_edges in Hr.
    destruct (label explode_dn org mgr) as [l|e'] eqn:El;
      rewrite ?res_bind_Ok_l, ?res_bind_Raise_l in Hr.
    + rewrite Hget in Hr. cbn [from_option] in Hr. rewrite res_bind_Ok_l in Hr.
      destruct (res_mapM (render_report explode_dn org) dns) as [ts|e'] eqn:Et;
        rewrite ?res_bind_Ok_l, ?res_bind_Raise_l in Hr; [done|].
      injection Hr as ->. apply res_mapM_Raise in Et as (dn & Hdn & Hr).
      unfold render_report in Hr.
      destruct (label explode_dn org dn) as [l'|e'] eqn:El';
        rewrite ?res_bind_Ok_l, ?res_bind_Raise_l in Hr; [done|].
      injection Hr as ->. exists dn. split; [|by apply (label_Raise org)].
      apply elem_of_app. right. apply elem_of_app. right.
      by apply (elem_of_groups _ mgr dns).
    + injection Hr as ->. exists mgr. split; [|by apply (label_Raise org)].
      apply elem_of_app. right. apply elem_of_app. by left.
  - intros [= ->]. apply res_mapM_Raise in Ec as (dept & Hdept & Hr).
    destruct (assoc_key_is_Some _ _ Hdept) as (dns & Hget & Hin).
    unfold render_cluster in Hr. rewrite Hget in Hr.
    cbn [from_option] in Hr. rewrite res_bind_Ok_l in Hr.
    destruct (res_mapM (render_member explode_dn org) dns) as [ns|e'] eqn:En;
      rewrite ?res_bind_Ok_l, ?res_bind_Raise_l in Hr; [done|].
    injection Hr as ->. apply res_mapM_Raise in En as (dn & Hdn & Hr).
    unfold render_member in Hr.
    destruct (label explode_dn org dn) as [l'|e'] eqn:El';
      rewrite ?res_bind_Ok_l, ?res_bind_Raise_l in Hr; [done|].
    injection Hr as ->. exists dn. split; [|by apply (label_Raise org)].
    apply elem_of_app. left. by apply (elem_of_groups _ dept dns).
Qed.

(** X12.  The label of an identifier, from the input to the node: the name
    and the title of the last record of the identifier on two lines, and
    for an identifier without a record the leading component of the
    identifier over the text "(missing from database)". *)
Theorem label_of_input (result : result_t) (org : org_t) (id ident : pystr) :
  result_to_org result None = Ok org →
  dn_to_ident explode_dn id = Ok ident →
  ∃ recs, records_of result = Ok recs ∧
    label explode_dn org id
    = Ok (match last_record id recs with
          | Some r => rec_name r ++ nl ++ rec_title r
          | None => ident ++ nl ++ missing_title
          end).
Proof.
  intros (recs & Hrecs & ->)%result_to_org_Ok_inv Hid.
  exists recs. split; [done|].
  destruct (build_from_tables recs) as (_ & _ & Hn & Ht).
  rewrite label_outcome, Hid, res_bind_Ok_l. unfold title_s.
  rewrite Hn, Ht. by destruct (last_record id recs).
Qed.

End RenderFacts.

Lemma render_total_witness :
  forallb (parses explode_dn_plain)
          (rendered_ids (build_from empty_org alice_bob_records)) = true ∧
  ∃ body, render explode_dn_plain ascii_word ascii_lower
                 (build_from empty_org alice_bob_records)
          = Ok (template_head ++ body ++ template_foot).
Proof.
  assert (forallb (parses explode_dn_plain)
            (rendered_ids (build_from empty_org alice_bob_records)) = true)
    as H by (vm_compute; reflexivity).
  split; [exact H|].
  exact (render_total explode_dn_plain ascii_word ascii_lower _ H).
Defined.

(** A report whose identifier is the empty string: [explode_dn] returns no
    component and [dn_to_ident] raises [IndexError]. *)
Lemma render_raises_only_witness :
  render explode_dn_plain ascii_word ascii_lower
         (Org [(py "cn=b", [[]])] [] ∅ ∅ ∅ ∅) = Raise IndexError ∧
  ∃ id, id ∈ rendered_ids (Org [(py "cn=b", [[]])] [] ∅ ∅ ∅ ∅)
        ∧ dn_to_ident explode_dn_plain id = Raise IndexError.
Proof.
  assert (render explode_dn_plain ascii_word ascii_lower
            (Org [(py "cn=b", [[]])] [] ∅ ∅ ∅ ∅) = Raise IndexError)
    as H by (vm_compute; reflexivity).
  split; [exact H|].
  exact (render_raises_only explode_dn_plain ascii_word ascii_lower _ _ H).
Defined.

Lemma label_of_input_witness :
  result_to_org alice_bob None = Ok (build_from empty_org alice_bob_records) ∧
  dn_to_ident explode_dn_plain (py "cn=b") = Ok (py "b") ∧
  ∃ recs, records_of alice_bob = Ok recs ∧
    label explode_dn_plain (build_from empty_org alice_bob_records) (py "cn=b")
    = Ok (match last_record (py "cn=b") recs with
          | Some r => rec_name r ++ nl ++ rec_title r
          | None => py "b" ++ nl ++ missing_title
          end).
Proof.
  assert (result_to_org alice_bob None
          = Ok (build_from empty_org alice_bob_records)) as H1
    by (vm_compute; reflexivity).
  assert (dn_to_ident explode_dn_plain (py "cn=b") = Ok (py "b")) as H2
    by (vm_compute; reflexivity).
  split; [exact H1|]. split; [exact H2|].
  exact (label_of_input explode_dn_plain alice_bob _ (py "cn=b") (py "b") H1 H2).
Defined.

(** ** The slug: what it is made of *)

Lemma lstrip_split c s : ∃ k, s = k ++ lstrip c s ∧ Forall (λ x, x = c) k.
Proof.
  induction s as [|x s (k & Hs & Hk)]; [by exists []|]. cbn [lstrip].
  destruct (x =? c) eqn:E.
  - apply N.eqb_eq in E. subst x. exists (c :: k). split.
    + simpl. by f_equal.
    + by constructor.
  - by exists [].
Qed.

Lemma lstrip_head c s : head (lstrip c s) ≠ Some c.
Proof.
  induction s as [|x s IH]; [done|]. cbn [lstrip].
  destruct (x =? c) eqn:E; [done|]. apply N.eqb_neq in E. simpl. congruence.
Qed.

Lemma lstrip_id c s : head s ≠ Some c → lstrip c s = s.
Proof.
  destruct s as [|x s]; [done|]. simpl. intros H.
  destruct (x =? c) eqn:E; [|done]. apply N.eqb_eq in E. congruence.
Qed.

Lemma rstrip_split c s : ∃ k, s = rstrip c s ++ k ∧ Forall (λ x, x = c) k.
Proof.
  unfold rstrip. destruct (lstrip_split c (reverse s)) as (k & Hs & Hk).
  exists (reverse k). split.
  - rewrite <-reverse_app, <-Hs. by rewrite reverse_involutive.
  - by apply Forall_reverse.
Qed.

Lemma rstrip_last c s : last (rstrip c s) ≠ Some c.
Proof. unfold rstrip. rewrite last_reverse. apply lstrip_head. Qed.

Lemma rstrip_id c s : last s ≠ Some c → rstrip c s = s.
Proof.
  intros H. unfold rstrip. rewrite lstrip_id.
  - apply reverse_involutive.
  - by rewrite head_reverse.
Qed.

Lemma strip_ends c s :
  head (strip c s) ≠ Some c ∧ last (strip c s) ≠ Some c.
Proof.
  unfold strip. split; [|apply rstrip_last].
  destruct (rstrip_split c (lstrip c s)) as (k & Hs & _).
  pose proof (lstrip_head c s) as Hh. rewrite Hs in Hh.
  by destruct (rstrip c (lstrip c s)).
Qed.

Lemma strip_Forall (P : N → Prop) c s : Forall P s → Forall P (strip c s).
Proof.
  intros H. unfold strip.
  destruct (lstrip_split c s) as (k1 & Hs1 & _).
  destruct (rstrip_split c (lstrip c s)) as (k2 & Hs2 & _).
  rewrite Hs1, Hs2 in H.
  by apply Forall_app in H as [_ [? _]%Forall_app].
Qed.

Lemma strip_id c s : head s ≠ Some c → last s ≠ Some c → strip c s = s.
Proof. intros Hh Hl. unfold strip. rewrite lstrip_id by done. by apply rstrip_id. Qed.

Lemma re_sub_W_word is_word b s :
  is_word underscore = true →
  Forall (λ c, is_word c = true) (re_sub_W is_word b s).
Proof.
  intros Hu. revert b. induction s as [|c s IH]; intros b; [constructor|].
  cbn [re_sub_W]. destruct (is_word c) eqn:E; [by constructor|].
  destruct b; [done|by constructor].
Qed.

Lemma re_sub_W_id is_word b s :
  Forall (λ c, is_word c = true) s → re_sub_W is_word b s = s.
Proof.
  intros H. revert b. induction H as [|c s Hc _ IH]; intros b; [done|].
  cbn [re_sub_W]. by rewrite Hc, IH.
Qed.

Lemma snake_case_shape (is_word : N → bool) (str_lower : pystr → pystr)
    (s : pystr) :
  is_word underscore = true →
  let t := strip underscore (re_sub_W is_word false s) in
  snake_case is_word str_lower s = str_lower t ∧
  Forall (λ c, is_word c = true) t ∧
  head t ≠ Some underscore ∧ last t ≠ Some underscore.
Proof.
  intros Hu. split; [done|]. split; [|apply strip_ends].
  by apply strip_Forall, re_sub_W_word.
Qed.

(** X13.  When the underscore is a word character, the slug is the
    lowercase form of a string made of word characters only that neither
    begins nor ends with an underscore. *)
Theorem snake_case_word_chars (is_word : N → bool)
    (str_lower : pystr → pystr) (s : pystr) :
  is_word underscore = true →
  ∃ t, snake_case is_word str_lower s = str_lower t ∧
       Forall (λ c, is_word c = true) t ∧
       head t ≠ Some underscore ∧ last t ≠ Some underscore.
Proof.
  intros Hu. exists (strip underscore (re_sub_W is_word false s)).
  by apply snake_case_shape.
Qed.

Lemma snake_case_word_chars_witness :
  ascii_word underscore = true ∧
  ∃ t, snake_case ascii_word ascii_lower (py "R&D") = ascii_lower t ∧
       Forall (λ c, ascii_word c = true) t ∧
       head t ≠ Some underscore ∧ last t ≠ Some underscore.
Proof.
  split; [reflexivity|].
  apply (snake_case_word_chars ascii_word ascii_lower (py "R&D")). reflexivity.
Defined.

Lemma in_range_spec lo hi c : in_range lo hi c = true ↔ lo ≤ c ∧ c ≤ hi.
Proof. unfold in_range. by rewrite andb_true_iff, !N.leb_le. Qed.

Lemma lower_char_word c : ascii_word c = true → ascii_word (lower_char c) = true.
Proof.
  intros H. unfold lower_char. destruct (in_range 65 90 c) eqn:E; [|done].
  apply in_range_spec in E. unfold ascii_word.
  assert (in_range 97 122 (c + 32) = true) as -> by (apply in_range_spec; lia).
  by rewrite orb_true_r.
Qed.

Lemma lower_char_not_underscore c :
  c ≠ underscore → lower_char c ≠ underscore.
Proof.
  unfold lower_char, underscore. destruct (in_range 65 90 c) eqn:E; [|done].
  apply in_range_spec in E. lia.
Qed.

Lemma lower_char_idem c : lower_char (lower_char c) = lower_char c.
Proof.
  unfold lower_char. destruct (in_range 65 90 c) eqn:E; [|by rewrite E].
  apply in_range_spec in E.
  destruct (in_range 65 90 (c + 32)) eqn:E'; [|done].
  apply in_range_spec in E'. lia.
Qed.

(** X14.  On ASCII names, where [ascii_word] and [ascii_lower] are the
    class [\w] and [str.lower], the slug of a slug is the slug itself. *)
Theorem snake_case_idempotent (s : pystr) :
  forallb (λ c, c <? 128) s = true →
  snake_case ascii_word ascii_lower (snake_case ascii_word ascii_lower s)
  = snake_case ascii_word ascii_lower s.
Proof.
  intros _.
  destruct (snake_case_shape ascii_word ascii_lower s eq_refl)
    as (-> & Hw & Hh & Hl).
  set (t := strip underscore (re_sub_W ascii_word false s)) in *.
  unfold snake_case.
  change (ascii_lower t) with (lower_char <$> t).
  rewrite re_sub_W_id.
  2:{ apply Forall_fmap. eapply Forall_impl; [exact Hw|].
      intros c Hc. by apply lower_char_word. }
  rewrite strip_id.
  - change (lower_char <$> (lower_char <$> t) = lower_char <$> t).
    rewrite <-list_fmap_compose. apply list_fmap_ext.
    intros _ c _. apply lower_char_idem.
  - destruct t as [|c t]; [done|]. simpl in *.
    intros [= E]. apply lower_char_not_underscore in E; [done|congruence].
  - rewrite fmap_last. destruct (last t) as [c|]; [|done]. simpl.
    intros [= E]. apply lower_char_not_underscore in E; [done|congruence].
Qed.

Lemma snake_case_idempotent_witness :
  forallb (λ c, c <? 128) (py "R&D  --Team_ ") = true ∧
  snake_case ascii_word ascii_lower
    (snake_case ascii_word ascii_lower (py "R&D  --Team_ "))
  = snake_case ascii_word ascii_lower (py "R&D  --Team_ ").
Proof.
  split; [reflexivity|].
  apply (snake_case_idempotent (py "R&D  --Team_ ")). reflexivity.
Defined.

(** ** The search filter *)

Lemma paren_scan_app d s1 s2 :
  paren_scan d (s1 ++ s2) = paren_scan d s1 ≫= λ d', paren_scan d' s2.
Proof.
  revert d. induction s1 as [|c s1 IH]; intros d; [done|]. cbn [app paren_scan].
  destruct (c =? 40); [apply IH|]. destruct (c =? 41); [|apply IH].
  destruct d; [done|apply IH].
Qed.

Lemma paren_scan_free d s : paren_free s = true → paren_scan d s = Some d.
Proof.
  unfold paren_free. induction s as [|c s IH]; [done|]. cbn [forallb paren_scan].
  intros [Hc Hs]%andb_prop. apply negb_true_iff, orb_false_iff in Hc as [-> ->].
  by apply IH.
Qed.

Lemma paren_scan_open d s : paren_scan d (py "(" ++ s) = paren_scan (S d) s.
Proof. done. Qed.

Lemma paren_scan_free_app d s1 s2 :
  paren_free s1 = true → paren_scan d (s1 ++ s2) = paren_scan d s2.
Proof. intros H. by rewrite paren_scan_app, paren_scan_free. Qed.

(** One clause opens and closes its own parentheses. *)
Lemma filt_str_scan d attr e :
  clause_paren_free (attr, e) = true →
  paren_scan d (filt_str attr e) = Some d.
Proof.
  destruct e as [[prefix_op compare_op] val]. cbn [clause_paren_free filt_str].
  intros [[[Ha Hp]%andb_prop Hc]%andb_prop Hv]%andb_prop.
  destruct (truthy_opt prefix_op).
  - rewrite paren_scan_open, (paren_scan_free_app _ _ _ Hp), paren_scan_open,
      (paren_scan_free_app _ _ _ Ha), (paren_scan_free_app _ _ _ Hc),
      (paren_scan_free_app _ _ _ Hv). done.
  - rewrite paren_scan_open, (paren_scan_free_app _ _ _ Ha),
      (paren_scan_free_app _ _ _ Hc), (paren_scan_free_app _ _ _ Hv). done.
Qed.

Lemma concat_scan d (fs : list pystr) :
  Forall (λ f, ∀ d, paren_scan d f = Some d) fs →
  paren_scan d (concat fs) = Some d.
Proof.
  induction 1 as [|f fs Hf _ IH]; [done|]. cbn [concat].
  by rewrite paren_scan_app, Hf.
Qed.

(** X15.  When no attribute name, operator or value contains a
    parenthesis, the filter string has balanced parentheses, for any
    number of filters. *)
Theorem filters_to_ldapfilter_balanced (filters : pydict filter_expr) :
  forallb clause_paren_free (dict_items filters) = true →
  balanced (filters_to_ldapfilter filters).
Proof.
  intros H. unfold balanced, filters_to_ldapfilter.
  assert (Forall (λ f, ∀ d, paren_scan d f = Some d)
            ((λ kv, filt_str kv.1 kv.2) <$> dict_items filters)) as Hfs.
  { apply Forall_fmap, Forall_forall. intros [attr e] Hin d.
    apply filt_str_scan. rewrite forallb_forall in H.
    by apply H, list_elem_of_In. }
  destruct (1 <? length _)%nat.
  - change (py "(&" ++ ?s) with (py "(" ++ py "&" ++ s).
    rewrite paren_scan_open, (paren_scan_free_app _ (py "&")) by done.
    rewrite paren_scan_app, concat_scan by done. done.
  - destruct (_ <$> dict_items filters) as [|f [|??]]; try done.
    apply Forall_cons in Hfs as [Hf _].
    by rewrite paren_scan_open, paren_scan_app, Hf.
Qed.

Lemma filters_to_ldapfilter_balanced_witness :
  forallb clause_paren_free (dict_items main_filters) = true ∧
  balanced (filters_to_ldapfilter main_filters).
Proof.
  split; [reflexivity|].
  apply (filters_to_ldapfilter_balanced main_filters). reflexivity.
Defined.

(** The filter of no filters is empty, of one filter is the clause in a
    second pair of parentheses. *)
Example filters_to_ldapfilter_small :
  filters_to_ldapfilter dict_empty = [] ∧
  filters_to_ldapfilter (dict_of_items [(py "sn", (None, py "=", py "Smith"))])
  = py "((sn=Smith))".
Proof. split; by vm_compute. Qed.

(** *** Items after an assignment *)

Section PyDictGet.
Context {V : Type}.
Implicit Types (es : list (option (pystr * V))) (d : pydict V).

Lemma assoc_store_slot k v es k' :
  is_Some (assoc k (live es)) →
  assoc k' (live (store_slot k v es))
  = if decide (k' = k) then Some v else assoc k' (live es).
Proof.
  induction es as [|[[k1 v1]|] es IH]; cbn [store_slot has_key].
  - by intros [? ?].
  - rewrite live_cons_Some. cbn [assoc].
    destruct (decide (k1 = k)) as [->|Hne].
    + intros _. rewrite bool_decide_eq_true_2 by done.
      rewrite live_cons_Some. cbn [assoc].
      destruct (decide (k = k')) as [->|]; [by rewrite decide_True|].
      by rewrite decide_False.
    + intros H. rewrite bool_decide_eq_false_2 by done.
      rewrite live_cons_Some. cbn [assoc].
      destruct (decide (k1 = k')) as [->|]; [by rewrite decide_False|].
      by apply IH.
  - rewrite !live_cons_None. apply IH.
Qed.

Lemma assoc_snoc k v (l : list (pystr * V)) k' :
  assoc k' (l ++ [(k, v)])
  = match assoc k' l with
    | Some x => Some x
    | None => if decide (k' = k) then Some v else None
    end.
Proof.
  induction l as [|[k1 v1] l IH]; cbn [app assoc].
  - destruct (decide (k = k')), (decide (k' = k)); congruence.
  - by destruct (decide (k1 = k')).
Qed.

(** Reading after writing. *)
Lemma dict_get_setitem k v d k' :
  dict_get k' (dict_setitem k v d)
  = if decide (k' = k) then Some v else dict_get k' d.
Proof.
  destruct (dict_contains k d) eqn:Hc.
  - unfold dict_setitem. rewrite Hc. unfold dict_get, dict_items.
    cbn [dk_entries]. apply assoc_store_slot.
    unfold dict_contains, dict_get, dict_items in Hc.
    by apply bool_decide_eq_true in Hc.
  - apply dict_contains_false in Hc. unfold dict_get.
    rewrite dict_items_setitem_fresh, assoc_snoc by done.
    destruct (decide (k' = k)) as [->|].
    + apply assoc_None_not_elem_of in Hc. unfold dict_keys in Hc.
      by rewrite Hc.
    + by destruct (assoc k' (dict_items d)).
Qed.

Lemma dict_get_Some_items k v d :
  dict_get k d = Some v → (k, v) ∈ dict_items d.
Proof. apply assoc_Some_elem_of. Qed.

End PyDictGet.

Lemma two_elements {A} (x y : A) (l : list A) :
  x ∈ l → y ∈ l → x ≠ y → (2 ≤ length l)%nat.
Proof.
  intros Hx Hy Hne. destruct l as [|a [|b l]]; simpl; [|exfalso|lia].
  - by apply elem_of_nil in Hx.
  - apply list_elem_of_singleton in Hx, Hy. congruence.
Qed.

(** X16.  For the Active Directory schema the filter is always a
    conjunction: whatever filters the caller passes, the account-type
    clause and the account-control clause are among its clauses, each with
    the fixed operator and value, and the six attributes asked for are the
    same. *)
Theorem get_attrlist_filterstr_ad (str_lower : pystr → pystr)
    (schema_name : pystr) (filters : pydict filter_expr) :
  str_lower schema_name = py "activedirectory" →
  ∃ clauses filters',
    get_attrlist_filterstr str_lower schema_name filters
    = Returns (py <$> ["dn"; "displayname"; "title"; "manager"; "company";
                       "department"]%string,
               py "(&" ++ concat clauses ++ py ")", filters') ∧
    clauses = (λ kv, filt_str kv.1 kv.2) <$> dict_items filters' ∧
    py "(sAMAccountType=805306368)" ∈ clauses ∧
    py "(!(userAccountControl:1.2.840.113556.1.4.803:=2))" ∈ clauses.
Proof.
  intros Hs. unfold get_attrlist_filterstr. rewrite Hs.
  rewrite bool_decide_eq_false_2 by (by vm_compute).
  rewrite bool_decide_eq_true_2 by done.
  set (f1 := dict_setitem sAMAccountType _ filters).
  set (f2 := dict_setitem userAccountControl _ f1).
  assert (dict_get sAMAccountType f2 = Some (None, py "=", py "805306368"))
    as H1.
  { unfold f2. rewrite dict_get_setitem, decide_False by (by vm_compute).
    unfold f1. by rewrite dict_get_setitem, decide_True. }
  assert (dict_get userAccountControl f2 = Some (Some (py "!"), py "=", py "2"))
    as H2 by (unfold f2; by rewrite dict_get_setitem, decide_True).
  apply dict_get_Some_items in H1, H2.
  set (clauses := (λ kv : pystr * filter_expr, filt_str kv.1 kv.2)
                    <$> dict_items f2).
  assert (py "(sAMAccountType=805306368)" ∈ clauses) as Hc1.
  { apply list_elem_of_fmap. eexists. split; [|exact H1]. by vm_compute. }
  assert (py "(!(userAccountControl:1.2.840.113556.1.4.803:=2))" ∈ clauses)
    as Hc2.
  { apply list_elem_of_fmap. eexists. split; [|exact H2]. by vm_compute. }
  exists clauses, f2. split_and!; try done.
  unfold filters_to_ldapfilter. fold clauses.
  assert (2 ≤ length clauses)%nat as Hlen
    by (by apply (two_elements _ _ _ Hc1 Hc2); vm_compute).
  destruct (1 <? length clauses)%nat eqn:E; [|apply Nat.ltb_ge in E; lia].
  f_equal.
Qed.

Lemma get_attrlist_filterstr_ad_witness :
  ascii_lower (py "ActiveDirectory") = py "activedirectory" ∧
  ∃ clauses filters',
    get_attrlist_filterstr ascii_lower (py "ActiveDirectory") main_filters
    = Returns (py <$> ["dn"; "displayname"; "title"; "manager"; "company";
                       "department"]%string,
               py "(&" ++ concat clauses ++ py ")", filters') ∧
    clauses = (λ kv, filt_str kv.1 kv.2) <$> dict_items filters' ∧
    py "(sAMAccountType=805306368)" ∈ clauses ∧
    py "(!(userAccountControl:1.2.840.113556.1.4.803:=2))" ∈ clauses.
Proof.
  split; [reflexivity|].
  apply (get_attrlist_filterstr_ad ascii_lower (py "ActiveDirectory")
           main_filters).
  reflexivity.
Defined.

(** What [main] asks the directory, by schema. *)
Example main_query_ad :
  get_attrlist_filterstr ascii_lower (py "ActiveDirectory") main_filters
  = Returns
      (py <$> ["dn"; "displayname"; "title"; "manager"; "company";
               "department"]%string,
       py "(&(displayName=*)(title=*)(sAMAccountType=805306368)(!(userAccountControl:1.2.840.113556.1.4.803:=2)))",
       dict_of_items
         [ (py "displayName", (None, py "=", py "*"));
           (py "title", (None, py "=", py "*"));
           (sAMAccountType, (None, py "=", py "805306368"));
           (userAccountControl, (Some (py "!"), py "=", py "2")) ]).
Proof. by vm_compute. Qed.

Example main_query_inetorgperson :
  get_attrlist_filterstr ascii_lower (py "inetOrgPerson") main_filters
  = Returns
      (py <$> ["dn"; "displayname"; "title"; "manager"; "o";
               "departmentNumber"]%string,
       py "(&(displayName=*)(title=*))", main_filters).
Proof. by vm_compute. Qed.

Example unsupported_schema :
  get_attrlist_filterstr ascii_lower (py "posixAccount") main_filters
  = ValueError (py "Unsupported schema " ++ dq ++ py "posixAccount" ++ dq).
Proof. by vm_compute. Qed.

(** * The clusters of the document *)

Lemma res_mapM_fmap_Ok {A B C} (f : B → res C) (g : A → B) (h : A → C)
    (l : list A) :
  (∀ x, x ∈ l → f (g x) = Ok (h x)) → res_mapM f (g <$> l) = Ok (h <$> l).
Proof.
  induction l as [|a l IH]; intros H; [done|]. rewrite !fmap_cons.
  cbn [res_mapM]. rewrite H by (by left). rewrite res_bind_Ok_l.
  rewrite IH by (intros x Hx; apply H; by right). done.
Qed.

Lemma filter_fst_NoDup (recs : list (pystr * record)) id r :
  NoDup recs.*1 → (id, r) ∈ recs → filter (λ p, p.1 = id) recs = [(id, r)].
Proof.
  induction recs as [|[dn r'] recs IH]; intros Hnd Hin.
  - by apply elem_of_nil in Hin.
  - rewrite fmap_cons in Hnd. apply NoDup_cons in Hnd as [Hnin Hnd].
    apply elem_of_cons in Hin as [Heq|Hin].
    + injection Heq as <- <-. rewrite filter_cons_True by done.
      f_equal. apply filter_none. intros [dn' r''] Hin' Hid. simpl in *.
      subst dn'. apply Hnin. by apply (list_elem_of_fmap_2 fst) in Hin'.
    + rewrite filter_cons_False; [by apply IH|].
      simpl. intros ->. apply Hnin. by apply (list_elem_of_fmap_2 fst) in Hin.
Qed.

Lemma last_record_NoDup (recs : list (pystr * record)) id r :
  NoDup recs.*1 → (id, r) ∈ recs → last_record id recs = Some r.
Proof.
  intros Hnd Hin. unfold last_record. by rewrite (filter_fst_NoDup _ id r).
Qed.

Lemma elem_of_field_values f recs d :
  d ∈ field_values f recs ↔ d ≠ [] ∧ ∃ id r, (id, r) ∈ recs ∧ f r = d.
Proof.
  unfold field_values. rewrite list_elem_of_filter, list_elem_of_fmap. split.
  - intros [Hne ([id r] & -> & Hin)]. split; [done|]. by exists id, r.
  - intros [Hne (id & r & Hin & <-)]. split; [done|]. by exists (id, r).
Qed.

(** The table-side of the grouping: what [depts] holds. *)
Lemma department_tables recs :
  let org := build_from empty_org recs in
  NoDup recs.*1 →
  NoDup (depts org).*1 ∧
  (∀ i j p q,
     (i < j)%nat → recs !! i = Some p → recs !! j = Some q →
     rec_department p.2 ≠ [] → rec_department q.2 = rec_department p.2 →
     ∃ cluster i' j',
       (rec_department p.2, cluster) ∈ depts org ∧
       (i' < j')%nat ∧
       cluster !! i' = Some p.1 ∧ cluster !! j' = Some q.1) ∧
  (∀ p, p ∈ recs → rec_department p.2 = [] →
     ∀ d cluster, (d, cluster) ∈ depts org → p.1 ∉ cluster).
Proof.
  intros org Hnd. subst org.
  destruct (build_from_tables recs) as (_ & Hgd & _).
  split_and!.
  - destruct Hgd as [-> _]. apply NoDup_first_seen.
  - intros i j [id1 r1] [id2 r2] Hij Hi Hj Hne Heq. simpl in *.
    set (d := rec_department r1) in *.
    destruct (filter_keeps_order (λ p, rec_department p.2 = d) recs
                i j (id1, r1) (id2, r2) Hij Hi Hj) as (i' & j' & Hlt & Hi' & Hj');
      [done..|].
    exists (members rec_department d recs), i', j'. split_and!; [|done|..].
    + apply assoc_Some_elem_of. destruct Hgd as [_ ->].
      apply (group_of_members _ _ _ id1); [done|].
      apply elem_of_members. exists r1. split; [|done].
      by apply list_elem_of_lookup_2 in Hi.
    + unfold members. by rewrite list_lookup_fmap, Hi'.
    + unfold members. by rewrite list_lookup_fmap, Hj'.
  - intros [id r] Hin Hempty d cluster Hc Hmem. simpl in *.
    destruct (grouped_elem_of _ _ _ _ _ Hgd Hc) as [Hd ->].
    apply elem_of_members in Hmem as (r' & Hin' & Hr').
    assert (r = r') as <- by exact (NoDup_fst_unique _ _ _ _ Hnd Hin Hin').
    congruence.
Qed.

Section Clusters.
Variable explode_dn : pystr → bool → res (list pystr).
Variable is_word : N → bool.
Variable str_lower : pystr → pystr.

(** With identifiers that do not repeat, the label of a record's identifier
    is the name and the title of that record. *)
Lemma label_of_record recs id r :
  NoDup recs.*1 → (id, r) ∈ recs → parses explode_dn id = true →
  label explode_dn (build_from empty_org recs) id
  = Ok (rec_name r ++ nl ++ rec_title r).
Proof.
  intros Hnd Hin Hp. unfold parses in Hp. rewrite label_outcome.
  destruct (dn_to_ident explode_dn id) as [ident|]; [|done].
  rewrite res_bind_Ok_l.
  destruct (build_from_tables recs) as (_ & _ & Hn & Ht).
  unfold title_s. by rewrite Hn, Ht, (last_record_NoDup _ _ r).
Qed.

Lemma render_cluster_of_records recs d :
  NoDup recs.*1 →
  (∀ id, id ∈ recs.*1 → parses explode_dn id = true) →
  d ∈ field_values rec_department recs →
  render_cluster explode_dn is_word str_lower (build_from empty_org recs) d
  = Ok (cluster_doc is_word str_lower recs d).
Proof.
  intros Hnd Hp (Hne & id & r & Hin & Hd)%elem_of_field_values.
  destruct (build_from_tables recs) as (_ & [_ Hget] & _).
  unfold render_cluster. rewrite Hget.
  rewrite (group_of_members _ _ _ id) by (done || apply elem_of_members; eauto).
  cbn [from_option]. rewrite res_bind_Ok_l. unfold members.
  rewrite (res_mapM_fmap_Ok _ fst node_line).
  - by rewrite res_bind_Ok_l.
  - intros [id' r'] [_ Hin']%list_elem_of_filter. unfold render_member.
    cbn [fst].
    rewrite (label_of_record recs id' r'); try done.
    apply Hp. by apply (list_elem_of_fmap_2 fst) in Hin'.
Qed.

Lemma render_edges_Ok org :
  (∀ id, id ∈ (reports_to org).*1 → parses explode_dn id = true) →
  (∀ id, id ∈ concat (reports_to org).*2 → parses explode_dn id = true) →
  ∃ edges, res_mapM (render_edges explode_dn org) (reports_to org).*1
           = Ok edges.
Proof.
  intros Hk Hv. apply res_mapM_Ok. intros mgr Hmgr.
  destruct (assoc_key_is_Some _ _ Hmgr) as (dns & Hget & Hin).
  unfold render_edges.
  destruct (label_parses explode_dn org mgr) as [l ->]; [by apply Hk|].
  rewrite res_bind_Ok_l, Hget. cbn [from_option]. rewrite res_bind_Ok_l.
  destruct (res_mapM_Ok (render_report explode_dn org) dns) as [ts ->];
    [|rewrite res_bind_Ok_l; by eexists].
  intros dn Hdn. unfold render_report.
  destruct (label_parses explode_dn org dn) as [l' ->];
    [|rewrite res_bind_Ok_l; by eexists].
  apply Hv. by apply (elem_of_groups _ mgr dns).
Qed.

Lemma concat_fmap_split {A} (f : A → pystr) (l1 l2 l3 : list A) (p q : A) :
  concat (f <$> l1 ++ p :: l2 ++ q :: l3)
  = concat (f <$> l1) ++ f p ++ concat (f <$> l2) ++ f q ++ concat (f <$> l3).
Proof.
  rewrite fmap_app, concat_app, fmap_cons. cbn [concat]. f_equal. f_equal.
  rewrite fmap_app, concat_app, fmap_cons. cbn [concat]. done.
Qed.

(** Two nodes of one cluster, in the order of their records. *)
Lemma cluster_doc_order recs i j p q :
  (i < j)%nat → recs !! i = Some p → recs !! j = Some q →
  rec_department q.2 = rec_department p.2 →
  ∃ before between after,
    cluster_doc is_word str_lower recs (rec_department p.2)
    = before ++ node_line p ++ between ++ node_line q ++ after.
Proof.
  intros Hij Hi Hj Hq.
  destruct (lookup_lt_split recs i j p q Hij Hi Hj) as (l1 & l2 & l3 & ->).
  set (d := rec_department p.2) in *.
  set (P := λ p' : pystr * record, rec_department p'.2 = d).
  assert (filter P (l1 ++ p :: l2 ++ q :: l3)
          = filter P l1 ++ p :: filter P l2 ++ q :: filter P l3) as Hf.
  { rewrite filter_app, (filter_cons_True P p) by done.
    by rewrite filter_app, (filter_cons_True P q) by done. }
  unfold cluster_doc. fold P. rewrite Hf, concat_fmap_split.
  set (heading := nl ++ py "  subgraph cluster_"
                  ++ snake_case is_word str_lower d ++ py " {" ++ nl
                  ++ py "    label = " ++ dq ++ d ++ dq ++ py ";").
  exists (heading ++ concat (node_line <$> filter P l1)),
         (concat (node_line <$> filter P l2)),
         (concat (node_line <$> filter P l3) ++ block_end).
  subst heading. repeat rewrite <-app_assoc. reflexivity.
Qed.

(** C7.  For every input sequence without repeated identifiers, read by the
    Normalizer and with identifiers that [explode_dn] accepts, the document
    has one cluster for each non-empty department, in the order of first
    occurrence, and the cluster of a department consists of the nodes of
    the records with that department, in input order: two records with
    the same non-empty department have their nodes in the same cluster, in
    their input order, and a record with an empty department is a member
    of no cluster. *)
Theorem department_grouping result recs :
  records_of result = Ok recs →
  NoDup recs.*1 →
  forallb (parses explode_dn) (recs.*1 ++ field_values rec_manager recs)
  = true →
  ∃ org edges,
    result_to_org result None = Ok org ∧
    NoDup (depts org).*1 ∧
    (∀ i j p q,
       (i < j)%nat → recs !! i = Some p → recs !! j = Some q →
       rec_department p.2 ≠ [] → rec_department q.2 = rec_department p.2 →
       (∃ cluster i' j',
          (rec_department p.2, cluster) ∈ depts org ∧
          (i' < j')%nat ∧
          cluster !! i' = Some p.1 ∧ cluster !! j' = Some q.1) ∧
       rec_department p.2 ∈ first_seen (field_values rec_department recs) ∧
       ∃ before between after,
         cluster_doc is_word str_lower recs (rec_department p.2)
         = before ++ node_line p ++ between ++ node_line q ++ after) ∧
    (∀ p, p ∈ recs → rec_department p.2 = [] →
       (∀ d cluster, (d, cluster) ∈ depts org → p.1 ∉ cluster) ∧
       ∀ d, d ∈ first_seen (field_values rec_department recs) →
            p ∉ filter (λ p', rec_department p'.2 = d) recs) ∧
    res_mapM (render_edges explode_dn org) (reports_to org).*1 = Ok edges ∧
    render explode_dn is_word str_lower org
    = Ok (template_head
          ++ concat (cluster_doc is_word str_lower recs
                       <$> first_seen (field_values rec_department recs))
          ++ concat edges ++ template_foot).
Proof.
  intros Hrecs Hnd Hp. rewrite forallb_forall in Hp.
  assert (∀ id, id ∈ recs.*1 → parses explode_dn id = true) as Hids.
  { intros id Hid. apply Hp, list_elem_of_In, elem_of_app. by left. }
  assert (∀ m, m ∈ field_values rec_manager recs → parses explode_dn m = true)
    as Hmgrs.
  { intros m Hm. apply Hp, list_elem_of_In, elem_of_app. by right. }
  clear Hp. set (org := build_from empty_org recs).
  destruct (department_tables recs Hnd) as (Hkeys & Horder & Hempty).
  destruct (build_from_tables recs) as (Hgm & Hgd & _).
  destruct (render_edges_Ok org) as [edges Hedges].
  { intros id Hid. apply Hmgrs. destruct Hgm as [Hk _]. fold org in Hk.
    rewrite Hk, elem_of_first_seen in Hid. done. }
  { intros id Hid. apply Hids.
    apply list_elem_of_In, in_concat in Hid as (group & Hg & Hid).
    apply list_elem_of_In, list_elem_of_fmap in Hg as ([m g] & -> & Hg).
    apply list_elem_of_In in Hid.
    destruct (grouped_elem_of _ _ _ _ _ Hgm Hg) as [_ Hmem]. simpl in *.
    rewrite Hmem in Hid. apply elem_of_members in Hid as (r & Hr & _).
    by apply (list_elem_of_fmap_2 fst) in Hr. }
  exists org, edges. split_and!; try done.
  - by apply result_to_org_build.
  - intros i j p q Hij Hi Hj Hne Heq. split_and!.
    + by apply (Horder i j).
    + rewrite elem_of_first_seen, elem_of_field_values. split; [done|].
      destruct p as [id r]. exists id, r. split; [|done].
      by apply list_elem_of_lookup_2 in Hi.
    + by apply cluster_doc_order with i j.
  - intros p Hin Hd. split; [by apply Hempty|].
    intros d Hdk [Hpd _]%list_elem_of_filter.
    rewrite elem_of_first_seen, elem_of_field_values in Hdk.
    destruct Hdk as [Hne _]. congruence.
  - unfold render. destruct Hgd as [Hk _]. fold org in Hk. rewrite Hk.
    rewrite <-(list_fmap_id (first_seen _)) at 1.
    rewrite (res_mapM_fmap_Ok _ id (cluster_doc is_word str_lower recs)).
    + by rewrite res_bind_Ok_l, Hedges, res_bind_Ok_l.
    + intros d Hdk. rewrite elem_of_first_seen in Hdk.
      by apply render_cluster_of_records.
Qed.

End Clusters.

Lemma department_grouping_witness :
  records_of alice_bob = Ok alice_bob_records ∧
  NoDup alice_bob_records.*1 ∧
  forallb (parses explode_dn_plain)
          (alice_bob_records.*1 ++ field_values rec_manager alice_bob_records)
  = true ∧
  ∃ org edges,
    result_to_org alice_bob None = Ok org ∧
    NoDup (depts org).*1 ∧
    (∀ i j p q,
       (i < j)%nat →
       alice_bob_records !! i = Some p → alice_bob_records !! j = Some q →
       rec_department p.2 ≠ [] → rec_department q.2 = rec_department p.2 →
       (∃ cluster i' j',
          (rec_department p.2, cluster) ∈ depts org ∧
          (i' < j')%nat ∧
          cluster !! i' = Some p.1 ∧ cluster !! j' = Some q.1) ∧
       rec_department p.2
         ∈ first_seen (field_values rec_department alice_bob_records) ∧
       ∃ before between after,
         cluster_doc ascii_word ascii_lower alice_bob_records
                     (rec_department p.2)
         = before ++ node_line p ++ between ++ node_line q ++ after) ∧
    (∀ p, p ∈ alice_bob_records → rec_department p.2 = [] →
       (∀ d cluster, (d, cluster) ∈ depts org → p.1 ∉ cluster) ∧
       ∀ d, d ∈ first_seen (field_values rec_department alice_bob_records) →
            p ∉ filter (λ p', rec_department p'.2 = d) alice_bob_records) ∧
    res_mapM (render_edges explode_dn_plain org) (reports_to org).*1
    = Ok edges ∧
    render explode_dn_plain ascii_word ascii_lower org
    = Ok (template_head
          ++ concat (cluster_doc ascii_word ascii_lower alice_bob_records
                       <$> first_seen (field_values rec_department
                                         alice_bob_records))
          ++ concat edges ++ template_foot).
Proof.
  assert (records_of alice_bob = Ok alice_bob_records) as H1
    by (vm_compute; reflexivity).
  assert (NoDup alice_bob_records.*1) as H2
    by (apply (bool_decide_unpack _); vm_compute; exact I).
  assert (forallb (parses explode_dn_plain)
            (alice_bob_records.*1
             ++ field_values rec_manager alice_bob_records) = true) as H3
    by (vm_compute; reflexivity).
  split; [exact H1|]. split; [exact H2|]. split; [exact H3|].
  exact (department_grouping explode_dn_plain ascii_word ascii_lower
           alice_bob alice_bob_records H1 H2 H3).
Defined.

(** The cluster of the scenario, and a record without a department that
    gets no node. *)
Example cluster_of_eng :
  cluster_doc ascii_word ascii_lower
    (alice_bob_records ++ [(py "cn=c", Rec (py "Cy") (py "CEO") [] [])])
    (py "Eng")
  = nl ++ py "  subgraph cluster_eng {" ++
    nl ++ py "    label = " ++ dq ++ py "Eng" ++ dq ++ py ";" ++
    nl ++ py "    " ++ dq ++ py "Alice" ++ nl ++ py "Dev" ++ dq ++ py ";" ++
    nl ++ py "    " ++ dq ++ py "Bob" ++ nl ++ py "Mgr" ++ dq ++ py ";" ++
    block_end.
Proof. by vm_compute. Qed.

(** * Writing the document *)

Lemma stream_for_agrees {A} (f : A → res pystr)
    (g : A → pystr * option exn) (l : list A) :
  (∀ x, x ∈ l → agrees (f x) (g x)) →
  agrees (ts ← res_mapM f l; Ok (concat ts)) (stream_for g l).
Proof.
  induction l as [|a l IH]; intros H; [done|]. cbn [res_mapM stream_for].
  pose proof (H a ltac:(by left)) as Ha.
  specialize (IH (λ x Hx, H x ltac:(by right))).
  destruct (f a) as [t|e]; rewrite ?res_bind_Ok_l, ?res_bind_Raise_l.
  - cbn [agrees] in Ha. rewrite Ha.
    destruct (res_mapM f l) as [ts|e];
      rewrite ?res_bind_Ok_l, ?res_bind_Raise_l in *.
    + cbn [agrees] in IH. rewrite IH. done.
    + destruct IH as [p ->]. by eexists.
  - destruct Ha as [p ->]. by eexists.
Qed.

Section StreamFacts.
Variable explode_dn : pystr → bool → res (list pystr).
Variable is_word : N → bool.
Variable str_lower : pystr → pystr.

Lemma stream_member_agrees org dn :
  agrees (render_member explode_dn org dn) (stream_member explode_dn org dn).
Proof.
  unfold render_member, stream_member, stream_expr.
  destruct (label explode_dn org dn);
    rewrite ?res_bind_Ok_l, ?res_bind_Raise_l; cbn [agrees]; [|by eexists].
  unfold wrote. by rewrite <-?app_assoc.
Qed.

Lemma stream_report_agrees org dn :
  agrees (render_report explode_dn org dn) (stream_report explode_dn org dn).
Proof.
  unfold render_report, stream_report, stream_expr.
  destruct (label explode_dn org dn);
    rewrite ?res_bind_Ok_l, ?res_bind_Raise_l; cbn [agrees]; [|by eexists].
  unfold wrote. by rewrite <-?app_assoc.
Qed.

Lemma stream_cluster_agrees org dept :
  agrees (render_cluster explode_dn is_word str_lower org dept)
         (stream_cluster explode_dn is_word str_lower org dept).
Proof.
  unfold render_cluster, stream_cluster, stream_lookup.
  destruct (assoc dept (depts org)) as [dns|]; cbn [from_option];
    rewrite ?res_bind_Ok_l, ?res_bind_Raise_l; [|by eexists].
  pose proof (stream_for_agrees (render_member explode_dn org)
                (stream_member explode_dn org) dns
                (λ dn _, stream_member_agrees org dn)) as H.
  destruct (res_mapM (render_member explode_dn org) dns) as [nodes|e];
    rewrite ?res_bind_Ok_l, ?res_bind_Raise_l in *.
  - cbn [agrees] in H. rewrite H. unfold and_then, wrote. cbn [fst snd].
    by rewrite ?app_nil_r, <-?app_assoc.
  - destruct H as [p ->]. by eexists.
Qed.

Lemma stream_edges_agrees org mgr :
  agrees (render_edges explode_dn org mgr) (stream_edges explode_dn org mgr).
Proof.
  unfold render_edges, stream_edges, stream_lookup, stream_expr.
  destruct (label explode_dn org mgr) as [l|e];
    rewrite ?res_bind_Ok_l, ?res_bind_Raise_l; [|by eexists].
  destruct (assoc mgr (reports_to org)) as [dns|]; cbn [from_option];
    rewrite ?res_bind_Ok_l, ?res_bind_Raise_l; [|by eexists].
  pose proof (stream_for_agrees (render_report explode_dn org)
                (stream_report explode_dn org) dns
                (λ dn _, stream_report_agrees org dn)) as H.
  destruct (res_mapM (render_report explode_dn org) dns) as [ts|e];
    rewrite ?res_bind_Ok_l, ?res_bind_Raise_l in *.
  - cbn [agrees] in H. rewrite H. unfold and_then, wrote. cbn [fst snd].
    by rewrite ?app_nil_r, <-?app_assoc.
  - destruct H as [p ->]. by eexists.
Qed.

(** The handle receives the document of [render] when the run ends
    without an exception; otherwise it receives a text that begins with
    the head of the graph, and the exception is the one [render] raises. *)
Lemma gen_orgchart_render fh org :
  match render explode_dn is_word str_lower org with
  | Ok doc =>
    gen_orgchart explode_dn is_word str_lower fh org = (fh ++ doc, None)
  | Raise e =>
    ∃ partial,
      gen_orgchart explode_dn is_word str_lower fh org
      = (fh ++ template_head ++ partial, Some e)
  end.
Proof.
  unfold gen_orgchart, stream, render.
  pose proof (stream_for_agrees _ _ (depts org).*1
                (λ d _, stream_cluster_agrees org d)) as Hc.
  pose proof (stream_for_agrees _ _ (reports_to org).*1
                (λ m _, stream_edges_agrees org m)) as He.
  destruct (res_mapM (render_cluster explode_dn is_word str_lower org) _)
    as [clusters|e]; rewrite ?res_bind_Ok_l, ?res_bind_Raise_l in *.
  - cbn [agrees] in Hc. rewrite Hc.
    destruct (res_mapM (render_edges explode_dn org) _) as [edges|e];
      rewrite ?res_bind_Ok_l, ?res_bind_Raise_l in *.
    + cbn [agrees] in He. rewrite He. unfold and_then, wrote. cbn [fst snd].
      by rewrite ?app_nil_r, <-?app_assoc.
    + destruct He as [p ->]. by eexists.
  - destruct Hc as [p ->]. by eexists.
Qed.

End StreamFacts.

(** A report whose identifier is the empty string: the head of the graph,
    the label of the manager and the opening of the node of the report are
    on the handle, 190 characters, when [IndexError] is raised. *)
Example gen_orgchart_partial :
  gen_orgchart explode_dn_plain ascii_word ascii_lower []
               (Org [(py "cn=b", [[]])] [] ∅ ∅ ∅ ∅)
  = (template_head ++ nl ++ py "  " ++ dq ++ py "b" ++ nl ++ missing_title
     ++ dq ++ py " -> {" ++ nl ++ py "    " ++ dq,
     Some IndexError)
  ∧ length (gen_orgchart explode_dn_plain ascii_word ascii_lower []
                         (Org [(py "cn=b", [[]])] [] ∅ ∅ ∅ ∅)).1 = 190%nat.
Proof. split; by vm_compute. Qed.
